(** * Engage Agents: decision-and-execution engine

    A shallow embedding of the repository's sources:
    - the React front end ([App.tsx]): the action table, the activity log,
      [fetchMetrics], [getRecom] and [execAction];
    - [contracts/BadgeNFT.sol]: the [mint] entry point;
    - [scripts/configureKeyManager.js]: the permission payload granted to the
      agent key, and the run of the script;
    - [scripts/deploy.js]: the two deployments and the rewriting of the
      [.env] file;
    - the Policy Store and the Action Executor of the Python back end, which
      the front end only reaches over HTTP.

    Library calls ([ethers], [erc725.js], [axios], the LSP8 base contract) are
    modelled by their contract at the arguments the sources pass; network and
    browser effects (responses, random draws, clocks, identifiers) are explicit
    inputs of the functions that consume them. *)

From Stdlib Require Import ZArith QArith Qround Qpower Lqa Ascii String List Lia.
From stdpp Require Import base option list strings gmap.

Local Open Scope string_scope.
Local Open Scope Z_scope.

(** ** JavaScript helpers *)

Module JS.

(** Truthiness of a possibly undefined string: [undefined] and [''] are
    falsy. *)
Definition truthy (o : option string) : bool :=
  match o with
  | Some s => negb (String.eqb s "")
  | None => false
  end.

(** [a || b] on possibly undefined strings. *)
Definition or_else (a b : option string) : option string :=
  if truthy a then a else b.

(** [a || d] with a defined default. *)
Definition or_default (a : option string) (d : string) : string :=
  match a with
  | Some s => if String.eqb s "" then d else s
  | None => d
  end.

(** [l.slice(0, n)] on arrays. *)
Definition slice0 {A} (n : nat) (l : list A) : list A := firstn n l.

(** [s.replace(pat, '')] with a string pattern: the first occurrence only. *)
Fixpoint remove_first (pat s : string) : string :=
  if String.prefix pat s
  then String.substring (String.length pat)
                        (String.length s - String.length pat) s
  else match s with
       | EmptyString => EmptyString
       | String c s' => String c (remove_first pat s')
       end.

(** [arr.includes(x)] on arrays of strings. *)
Definition includes (x : string) (l : list string) : bool :=
  existsb (String.eqb x) l.

End JS.

(** ** JavaScript numbers

    A finite number is taken as the rational it denotes. An arithmetic
    operation returns the exact result rounded to the nearest binary64
    value, the one with the even significand on a tie (IEEE 754, 53 bits
    of precision, least exponent -1074). Overflow is left out: the
    results the sources compute stay below 500. *)

Module Double.

Definition pow2 (k : Z) : Q := (2 ^ k)%Q.

(** The binary logarithm of a positive number, rounded down. *)
Definition ilog2 (x : Q) : Z :=
  let e := Z.log2 (Qnum x) - Z.log2 (Zpos (Qden x)) in
  if Qle_bool (pow2 e) x then e else e - 1.

Definition emin : Z := -1074.

(** The exponent of the unit in the last place at a positive [x]. *)
Definition ulp_exp (x : Q) : Z := Z.max emin (ilog2 x - 52).

(** The nearest integer, the even one on a tie. *)
Definition nearest_even (t : Q) : Z :=
  let f := Qfloor t in
  match (t - inject_Z f ?= 1 # 2)%Q with
  | Lt => f
  | Gt => f + 1
  | Eq => if Z.even f then f else f + 1
  end.

Definition round_pos (x : Q) : Q :=
  let k := ulp_exp x in
  (inject_Z (nearest_even (x / pow2 k)) * pow2 k)%Q.

(** The binary64 value nearest to [x]. *)
Definition round (x : Q) : Q :=
  match Qnum x with
  | 0 => 0%Q
  | Zpos _ => round_pos x
  | Zneg _ => (- round_pos (- x))%Q
  end.

(** [x * y] on numbers. *)
Definition mul (x y : Q) : Q := round (x * y).

(** The rational is the value of a number. *)
Definition is_double (x : Q) : Prop := (round x == x)%Q.

(** The literal [0.1]. *)
Definition tenth : Q := round (1 # 10).

End Double.

(** ** The [ethers] calls used by the sources *)

Module Ethers.

(** *** [parseUnits(value, decimals)]

    The decimal string [value] read as a fixed-point number with [decimals]
    fractional digits and returned as the integer count of smallest units
    (a 512-bit signed fixed number).  It throws, here [None], on a string
    that is not [-?digits*.?digits*] with at least one digit, on non-zero
    digits past the last representable decimal, and on overflow. *)

Definition is_digit (c : ascii) : bool :=
  (48 <=? nat_of_ascii c)%nat && (nat_of_ascii c <=? 57)%nat.

Definition digit_val (c : ascii) : Z := Z.of_nat (nat_of_ascii c) - 48.

(** The number a string of decimal digits denotes ([0] for the empty
    string). *)
Definition digits_value (l : list ascii) : Z :=
  fold_left (fun acc c => 10 * acc + digit_val c) l 0.

(** [BigInt] of an optional minus sign followed by decimal digits. *)
Definition BigInt (l : list ascii) : Z :=
  match l with
  | c :: l' => if Ascii.eqb c "-" then - digits_value l' else digits_value l
  | [] => 0
  end.

(** The longest prefix of digits and what follows it. *)
Fixpoint span_digits (l : list ascii) : list ascii * list ascii :=
  match l with
  | c :: l' =>
      if is_digit c
      then let '(ds, rest) := span_digits l' in (c :: ds, rest)
      else ([], l)
  | [] => ([], [])
  end.

(** The three groups matched by the number pattern: an optional minus
    sign, a run of digits, an optional dot and a second run of digits up
    to the end of the string. *)
Definition match_decimal (s : string)
  : option (bool * list ascii * list ascii) :=
  let l := list_ascii_of_string s in
  let '(neg, l) := match l with
                   | c :: l' => if Ascii.eqb c "-" then (true, l')
                                else (false, l)
                   | [] => (false, l)
                   end in
  let '(whole, rest) := span_digits l in
  match rest with
  | [] => Some (neg, whole, [])
  | c :: frac =>
      if Ascii.eqb c "." && forallb is_digit frac
      then Some (neg, whole, frac) else None
  end.

(** [while (decimal.length < decimals) { decimal += "0000"; }] *)
Fixpoint pad_zeros (fuel decimals : nat) (decimal : list ascii) : list ascii :=
  match fuel with
  | O => decimal
  | S fuel' =>
      if (length decimal <? decimals)%nat
      then pad_zeros fuel' decimals
             (decimal ++ ["0"; "0"; "0"; "0"]%char)
      else decimal
  end.

Definition all_zeros (l : list ascii) : bool :=
  forallb (Ascii.eqb "0"%char) l.

Definition width : Z := 512.

Definition parseUnits (value : string) (decimals : nat) : option Z :=
  match match_decimal value with
  | None => None
  | Some (neg, whole, frac) =>
      if (length whole + length frac =? 0)%nat then None
      else
        let whole := match whole with [] => ["0"%char] | _ => whole end in
        let decimal := pad_zeros decimals decimals frac in
        if negb (all_zeros (skipn decimals decimal)) then None
        else
          let decimal := firstn decimals decimal in
          let v := BigInt ((if neg then ["-"%char] else [])
                           ++ whole ++ decimal) in
          let limit := Z.shiftl 1 (width - 1) in
          if (- limit <=? v) && (v <? limit) then Some v else None
  end.

(** *** [parseUnits(value, unit)] with the unit given as a string

    Version 6 of the library, the one the imports of the front end are
    written for, takes a string unit for a unit name: the position of the
    name in this list, times three, is the number of decimals, and a
    string that is no unit name makes the call throw. *)

Definition unit_names : list string :=
  ["wei"; "kwei"; "mwei"; "gwei"; "szabo"; "finney"; "ether"].

Fixpoint index_of (x : string) (l : list string) : option nat :=
  match l with
  | [] => None
  | y :: l' => if String.eqb x y then Some O else S <$> index_of x l'
  end.

Definition unitDecimals (unit : string) : option nat :=
  (fun i => 3 * i)%nat <$> index_of unit unit_names.

(** [BigInt.prototype.toString()]: the decimal rendering. *)
Definition digit_char (d : Z) : ascii := ascii_of_nat (Z.to_nat (48 + d)).

Fixpoint nat_digits (fuel : nat) (n : Z) (acc : string) : string :=
  match fuel with
  | O => acc
  | S fuel' =>
      let acc := String (digit_char (n mod 10)) acc in
      if n / 10 =? 0 then acc else nat_digits fuel' (n / 10) acc
  end.

Definition bigint_toString (v : Z) : string :=
  let body := nat_digits (S (Z.to_nat (Z.log2 (Z.abs v)))) (Z.abs v) "" in
  if v <? 0 then String "-" body else body.

(** *** Hex strings and byte arrays (bytes are integers in [0, 256)) *)

Definition is_byte (b : Z) : Prop := 0 <= b < 256.

Definition hex_char (n : Z) : ascii :=
  if n <? 10 then ascii_of_nat (Z.to_nat (48 + n))
  else ascii_of_nat (Z.to_nat (87 + n)).

Definition hex_val (c : ascii) : option Z :=
  let n := Z.of_nat (nat_of_ascii c) in
  if (48 <=? n) && (n <=? 57) then Some (n - 48)
  else if (97 <=? n) && (n <=? 102) then Some (n - 87)
  else if (65 <=? n) && (n <=? 70) then Some (n - 55)
  else None.

Fixpoint hex_body (bytes : list Z) : string :=
  match bytes with
  | [] => ""
  | b :: bs => String (hex_char (b / 16)) (String (hex_char (b mod 16)) (hex_body bs))
  end.

(** [hexlify(bytes)] *)
Definition hexlify (bytes : list Z) : string := "0x" ++ hex_body bytes.

Fixpoint unhex_body (s : string) : option (list Z) :=
  match s with
  | EmptyString => Some []
  | String hi (String lo s') =>
      match hex_val hi, hex_val lo, unhex_body s' with
      | Some h, Some l, Some bs => Some (16 * h + l :: bs)
      | _, _, _ => None
      end
  | String _ EmptyString => None
  end.

(** [getBytes(hex)]: the bytes of a [0x]-prefixed hex string. *)
Definition getBytes (s : string) : option (list Z) :=
  match s with
  | String "0" (String "x" body) => unhex_body body
  | _ => None
  end.

(** [AbiCoder.decode(['bytes4'], data)[0]]: a [bytes4] fills one word of
    32 bytes, of which the coder gives the four leading ones; on data
    shorter than a word it throws. *)
Definition decodeBytes4 (data : string) : option (list Z) :=
  match getBytes data with
  | Some bs => if (length bs <? 32)%nat then None else Some (firstn 4 bs)
  | None => None
  end.

(** [toUtf8Bytes] on the ASCII strings the sources hash. *)
Definition toUtf8Bytes (s : string) : list Z :=
  map (fun c => Z.of_nat (nat_of_ascii c)) (list_ascii_of_string s).

End Ethers.

(** ** Keccak-256, the hash behind [ethers.id] *)

Module Keccak.

Definition mask64 : Z := Z.ones 64.

Definition rotl (x n : Z) : Z :=
  Z.land (Z.lor (Z.shiftl x n) (Z.shiftr x (64 - n))) mask64.

(** The state is 25 lanes of 64 bits, lane [(x, y)] at index [x + 5 * y]. *)
Definition lane (st : list Z) (x y : nat) : Z := nth (x + 5 * y) st 0.

Definition column (st : list Z) (x : nat) : Z :=
  Z.lxor (lane st x 0)
    (Z.lxor (lane st x 1)
       (Z.lxor (lane st x 2) (Z.lxor (lane st x 3) (lane st x 4)))).

Definition theta (st : list Z) : list Z :=
  map (fun i =>
         let x := (i mod 5)%nat in
         let d := Z.lxor (column st ((x + 4) mod 5))
                         (rotl (column st ((x + 1) mod 5)) 1) in
         Z.lxor (nth i st 0) d)
      (seq 0 25).

Definition rotation_offsets : list Z :=
  [ 0;  1; 62; 28; 27;
   36; 44;  6; 55; 20;
    3; 10; 43; 25; 39;
   41; 45; 15; 21;  8;
   18;  2; 61; 56; 14].

(** Lane [(x, y)] moves, rotated, to [(y, 2x + 3y)]; read backwards, the
    lane at [(X, Y)] comes from [(X + 3Y, X)]. *)
Definition rho_pi (st : list Z) : list Z :=
  map (fun j =>
         let X := (j mod 5)%nat in
         let Y := (j / 5)%nat in
         let x := ((X + 3 * Y) mod 5)%nat in
         let i := (x + 5 * X)%nat in
         rotl (nth i st 0) (nth i rotation_offsets 0))
      (seq 0 25).

Definition chi (st : list Z) : list Z :=
  map (fun i =>
         let x := (i mod 5)%nat in
         let y := (i / 5)%nat in
         Z.lxor (lane st x y)
           (Z.land (Z.lxor (lane st ((x + 1) mod 5) y) mask64)
                   (lane st ((x + 2) mod 5) y)))
      (seq 0 25).

Definition iota (rc : Z) (st : list Z) : list Z :=
  match st with
  | a :: st' => Z.lxor a rc :: st'
  | [] => []
  end.

Definition round_constants : list Z :=
  [0x0000000000000001; 0x0000000000008082; 0x800000000000808A;
   0x8000000080008000; 0x000000000000808B; 0x0000000080000001;
   0x8000000080008081; 0x8000000000008009; 0x000000000000008A;
   0x0000000000000088; 0x0000000080008009; 0x000000008000000A;
   0x000000008000808B; 0x800000000000008B; 0x8000000000008089;
   0x8000000000008003; 0x8000000000008002; 0x8000000000000080;
   0x000000000000800A; 0x800000008000000A; 0x8000000080008081;
   0x8000000000008080; 0x0000000080000001; 0x8000000080008008].

Definition round (st : list Z) (rc : Z) : list Z :=
  iota rc (chi (rho_pi (theta st))).

Definition keccak_f (st : list Z) : list Z :=
  fold_left round round_constants st.

(** Rate of Keccak-256 in bytes. *)
Definition rate : nat := 136.

(** Multi-rate padding [10*1] with the original Keccak domain byte. *)
Definition pad (msg : list Z) : list Z :=
  let k := (rate - (length msg mod rate))%nat in
  match k with
  | 1%nat => msg ++ [0x81]
  | _ => msg ++ [0x01] ++ repeat 0 (k - 2) ++ [0x80]
  end.

(** Little-endian lane made of the eight bytes at offset [8 * i]. *)
Definition lane_of_bytes (block : list Z) (i : nat) : Z :=
  fold_right (fun b acc => b + 256 * acc) 0 (firstn 8 (skipn (8 * i) block)).

Definition xor_block (st block : list Z) : list Z :=
  map (fun i =>
         if (i <? 17)%nat
         then Z.lxor (nth i st 0) (lane_of_bytes block i)
         else nth i st 0)
      (seq 0 25).

Fixpoint absorb (fuel : nat) (st msg : list Z) : list Z :=
  match fuel, msg with
  | S fuel', _ :: _ =>
      absorb fuel' (keccak_f (xor_block st (firstn rate msg)))
             (skipn rate msg)
  | _, _ => st
  end.

Definition state_byte (st : list Z) (i : nat) : Z :=
  Z.land (Z.shiftr (nth (i / 8) st 0) (8 * Z.of_nat (i mod 8))) 255.

Definition keccak256 (msg : list Z) : list Z :=
  let padded := pad msg in
  let st := absorb (length padded) (repeat 0 25) padded in
  map (state_byte st) (seq 0 32).

End Keccak.

(** ** The front end ([App.tsx]) *)

Module App.

Record ProfileMetrics := {
  followers : Z;
  postsCount : Z;
  engagementRate : Q;
  profileName : option string;
  profileImageCid : option string;
  description : option string
}.

Record ActionResponse := { action_id : Z; action_name : string }.

Record ActionLog := {
  id : string;
  timestamp : Z;
  name : string;
  status : string;
  message : string;
  txHash : option string
}.

(** An entry of the action table: display name and required parameters. *)
Record ActionSpec := { act_name : string; requires : option (list string) }.

Definition AVAILABLE_ACTIONS : gmap Z ActionSpec :=
  <[0 := {| act_name := "Make Post"; requires := Some ["content"] |}]>
  (<[1 := {| act_name := "Follow Profile"; requires := Some ["target"] |}]>
  (<[2 := {| act_name := "Reward Follower";
             requires := Some ["target"; "amount"] |}]> ∅)).

(** [action.requires?.includes(p)] *)
Definition requires_param (a : ActionSpec) (p : string) : bool :=
  match requires a with
  | Some l => JS.includes p l
  | None => false
  end.

(** *** The activity log *)

(** What [crypto.randomUUID()] and [Date.now()] return when an entry is
    created. *)
Record Stamp := { uuid : string; now : Z }.

(** The argument of [addLog]: an entry without [id] and [timestamp]. *)
Record LogEntry := {
  e_name : string;
  e_status : string;
  e_message : string;
  e_txHash : option string
}.

Definition stamped (s : Stamp) (e : LogEntry) : ActionLog :=
  {| id := uuid s; timestamp := now s; name := e_name e;
     status := e_status e; message := e_message e; txHash := e_txHash e |}.

Definition LOG_CAP : nat := 50.

(** [setLogs(l => [{id, timestamp, ...entry}, ...l].slice(0, 50))] *)
Definition addLog (s : Stamp) (e : LogEntry) (l : list ActionLog)
  : list ActionLog :=
  JS.slice0 LOG_CAP (stamped s e :: l).

(** *** Component state *)

Record Loading := { l_metrics : bool; l_recommend : bool; l_exec : bool }.

Record AppState := {
  address : option string;       (* account of the UP provider *)
  provider : bool;               (* whether the UP provider is there *)
  metrics : option ProfileMetrics;
  recommendation : option ActionResponse;
  logs : list ActionLog;
  loading : Loading;
  error : option string;
  target : string;
  content : string;
  amount : string
}.

Definition setMetrics (m : option ProfileMetrics) (st : AppState) :=
  {| address := address st; provider := provider st; metrics := m;
     recommendation := recommendation st; logs := logs st;
     loading := loading st; error := error st; target := target st;
     content := content st; amount := amount st |}.

Definition setRecommendation (r : option ActionResponse) (st : AppState) :=
  {| address := address st; provider := provider st; metrics := metrics st;
     recommendation := r; logs := logs st; loading := loading st;
     error := error st; target := target st; content := content st;
     amount := amount st |}.

Definition setLogs (f : list ActionLog -> list ActionLog) (st : AppState) :=
  {| address := address st; provider := provider st; metrics := metrics st;
     recommendation := recommendation st; logs := f (logs st);
     loading := loading st; error := error st; target := target st;
     content := content st; amount := amount st |}.

Definition setLoading (f : Loading -> Loading) (st : AppState) :=
  {| address := address st; provider := provider st; metrics := metrics st;
     recommendation := recommendation st; logs := logs st;
     loading := f (loading st); error := error st; target := target st;
     content := content st; amount := amount st |}.

Definition setError (e : option string) (st : AppState) :=
  {| address := address st; provider := provider st; metrics := metrics st;
     recommendation := recommendation st; logs := logs st;
     loading := loading st; error := e; target := target st;
     content := content st; amount := amount st |}.

(** [setTarget(t); setContent(c); setAmount(a)] *)
Definition setInputs (t c a : string) (st : AppState) :=
  {| address := address st; provider := provider st; metrics := metrics st;
     recommendation := recommendation st; logs := logs st;
     loading := loading st; error := error st; target := t;
     content := c; amount := a |}.

Definition log (s : Stamp) (e : LogEntry) (st : AppState) : AppState :=
  setLogs (addLog s e) st.

Definition with_metrics (b : bool) (l : Loading) : Loading :=
  {| l_metrics := b; l_recommend := l_recommend l; l_exec := l_exec l |}.
Definition with_recommend (b : bool) (l : Loading) : Loading :=
  {| l_metrics := l_metrics l; l_recommend := b; l_exec := l_exec l |}.
Definition with_exec (b : bool) (l : Loading) : Loading :=
  {| l_metrics := l_metrics l; l_recommend := l_recommend l; l_exec := b |}.

(** The effect run when [address] changes: fetch the metrics when there is
    an account, otherwise [setMetrics(null); setRecommendation(null);
    setLogs([])]. This is the reset branch. *)
Definition onDisconnect (st : AppState) : AppState :=
  setLogs (fun _ => []) (setRecommendation None (setMetrics None st)).

(** A promise settles with a value or rejects with an error whose
    [message] is kept. *)
Inductive Outcome (A : Type) : Type :=
| Resolved (a : A)
| Rejected (msg : string).
Arguments Resolved {A} a.
Arguments Rejected {A} msg.

(** *** [fetchMetrics] *)

(** What [erc725.fetchData] returns for the two keys read. *)
Record ProfileImage := { url : option string }.

Record LSP3ProfileJson := {
  lsp3_name : option string;
  lsp3_description : option string;
  profileImage : option (list ProfileImage)
}.

Record LSP3Value := { LSP3Profile : option LSP3ProfileJson }.

Record FetchedData := {
  profile_value : option LSP3Value;      (* value of 'LSP3Profile' *)
  issued_assets : option (list string)   (* value of 'LSP12IssuedAssets[]' *)
}.

(** [profile?.LSP3Profile?.profileImage?.[0]?.url.replace('ipfs://','')]:
    undefined when the chain stops early, a [TypeError] when the first
    image has no [url]. *)
Definition imageCid (j : option LSP3ProfileJson) : Outcome (option string) :=
  match j ≫= profileImage with
  | Some (img :: _) =>
      match url img with
      | Some u => Resolved (Some (JS.remove_first "ipfs://" u))
      | None =>
          Rejected "Cannot read properties of undefined (reading 'replace')"
      end
  | _ => Resolved None
  end.

(** [+(x).toFixed(3)] on a number [x] that is not negative, given by its
    exact value: [toFixed] takes the integer [n] for which [n / 1000] is
    nearest to that value, the larger one on a tie, and prints it with
    three decimals; the number read back prints as [n / 1000], which is
    what is kept here. *)
Definition toFixed3 (x : Q) : Q :=
  Qmake (Qfloor (x * 1000 + (1 # 2))%Q) 1000.

(** The body of the [try] block: the data read from the chain and the two
    [Math.random()] draws, numbers given by their values [r1] and [r2],
    give the metrics, or an error is thrown. The two products are those
    of numbers, rounded to binary64. *)
Definition loadMetrics (chain : Outcome FetchedData) (r1 r2 : Q)
  : Outcome ProfileMetrics :=
  match chain with
  | Rejected msg => Rejected msg
  | Resolved data =>
      let json := profile_value data ≫= LSP3Profile in
      let name := JS.or_default (json ≫= lsp3_name) "Anonymous" in
      let desc := JS.or_default (json ≫= lsp3_description) "" in
      match imageCid json with
      | Rejected msg => Rejected msg
      | Resolved imgCid =>
          let followers := Qfloor (Double.mul r1 500) in
          let engagement := toFixed3 (Double.mul r2 Double.tenth) in
          Resolved
            {| followers := followers;
               postsCount :=
                 match issued_assets data with
                 | Some assets => Z.of_nat (length assets)
                 | None => 0
                 end;
               engagementRate := engagement;
               profileName := Some name;
               profileImageCid := imgCid;
               description := Some desc |}
      end
  end.

Definition fetchMetrics (s1 s2 : Stamp) (chain : Outcome FetchedData)
           (r1 r2 : Q) (st : AppState) : AppState :=
  if negb (JS.truthy (address st)) then st
  else
    let st := setError None (setLoading (with_metrics true) st) in
    let st := log s1 {| e_name := "Fetch Metrics"; e_status := "pending";
                        e_message := "Loading profile...";
                        e_txHash := None |} st in
    let st :=
      match loadMetrics chain r1 r2 with
      | Resolved m =>
          log s2 {| e_name := "Fetch Metrics"; e_status := "success";
                    e_message :=
                      "Loaded " ++ default "Anonymous" (profileName m);
                    e_txHash := None |}
              (setMetrics (Some m) st)
      | Rejected msg =>
          setMetrics None
            (log s2 {| e_name := "Fetch Metrics"; e_status := "failed";
                       e_message := msg; e_txHash := None |}
                 (setError (Some msg) st))
      end in
    setLoading (with_metrics false) st.

(** *** [getRecom] *)

(** Body of the POST to [/recommend-action]. *)
Record RecommendRequest := {
  rq_up_address : string;
  rq_followers : Z;
  rq_posts : Z;
  rq_engagement : Q
}.

(** The state after the call and the request sent, if any. *)
Definition getRecom (s1 s2 : Stamp) (resp : Outcome ActionResponse)
           (st : AppState) : AppState * option RecommendRequest :=
  match metrics st, address st with
  | Some m, Some addr =>
      if negb (JS.truthy (address st))
      then (setError (Some "Connect and load metrics first") st, None)
      else
        let st := setError None (setLoading (with_recommend true) st) in
        let st := log s1 {| e_name := "Recommend"; e_status := "pending";
                            e_message := "Agent thinking...";
                            e_txHash := None |} st in
        let request := {| rq_up_address := addr;
                          rq_followers := followers m;
                          rq_posts := postsCount m;
                          rq_engagement := engagementRate m |} in
        let st :=
          match resp with
          | Resolved data =>
              log s2 {| e_name := "Recommend"; e_status := "success";
                        e_message := action_name data; e_txHash := None |}
                  (setRecommendation (Some data) st)
          | Rejected msg =>
              log s2 {| e_name := "Recommend"; e_status := "failed";
                        e_message := msg; e_txHash := None |}
                  (setError (Some msg) st)
          end in
        (setLoading (with_recommend false) st, Some request)
  | _, _ => (setError (Some "Connect and load metrics first") st, None)
  end.

(** *** [execAction] *)

(** What the function takes from [ethers] besides the number parser: the
    address test, the number of decimal places [parseUnits] takes a unit
    given as a string to stand for, if any, and the message of the error
    [parseUnits] throws on a given input. *)
Record Lib := {
  isAddress : string -> bool;
  unitDecimals : string -> option nat;
  parse_error : string -> string
}.

(** [parseUnits(value, unit)] with the unit given as a string. *)
Definition parseUnitsAt (lib : Lib) (value unit : string) : option Z :=
  match unitDecimals lib unit with
  | Some decimals => Ethers.parseUnits value decimals
  | None => None
  end.

(** Body of the POST to [/execute-action]. *)
Record Payload := {
  up_address : string;
  p_action_id : Z;
  target_address : option string;
  post_content_cid : option string;
  reward_amount_wei : option string
}.

Record Details := {
  transactionHash : option string;
  details_txHash : option string
}.

(** [res.data] of the execute call. *)
Record ExecResponse := { details : option Details }.

Definition and_then {A B} (o : Outcome A) (k : A -> Outcome B) : Outcome B :=
  match o with
  | Resolved a => k a
  | Rejected msg => Rejected msg
  end.

Definition checkTarget (lib : Lib) (action : ActionSpec) (target : string)
           (p : Payload) : Outcome Payload :=
  if requires_param action "target" then
    if negb (isAddress lib target) then Rejected "Invalid target"
    else Resolved {| up_address := up_address p;
                     p_action_id := p_action_id p;
                     target_address := Some target;
                     post_content_cid := post_content_cid p;
                     reward_amount_wei := reward_amount_wei p |}
  else Resolved p.

Definition checkContent (action : ActionSpec) (content : string)
           (p : Payload) : Outcome Payload :=
  if requires_param action "content" then
    if String.eqb content "" then Rejected "Content required"
    else Resolved {| up_address := up_address p;
                     p_action_id := p_action_id p;
                     target_address := target_address p;
                     post_content_cid := Some content;
                     reward_amount_wei := reward_amount_wei p |}
  else Resolved p.

(** [const amt = parseUnits(amount, "18").toString();
    payload.reward_amount_wei = amt] *)
Definition checkAmount (lib : Lib) (action : ActionSpec) (amount : string)
           (p : Payload) : Outcome Payload :=
  if requires_param action "amount" then
    match parseUnitsAt lib amount "18" with
    | Some amt =>
        Resolved {| up_address := up_address p;
                    p_action_id := p_action_id p;
                    target_address := target_address p;
                    post_content_cid := post_content_cid p;
                    reward_amount_wei := Some (Ethers.bigint_toString amt) |}
    | None => Rejected (parse_error lib amount)
    end
  else Resolved p.

(** The statements of the [try] block before the POST. *)
Definition buildPayload (lib : Lib) (addr : string) (rec : ActionResponse)
           (action : ActionSpec) (target content amount : string)
  : Outcome Payload :=
  let payload := {| up_address := addr; p_action_id := action_id rec;
                    target_address := None; post_content_cid := None;
                    reward_amount_wei := None |} in
  and_then (checkTarget lib action target payload) (fun payload =>
  and_then (checkContent action content payload) (fun payload =>
  checkAmount lib action amount payload)).

(** One call of [execAction]: the state it leaves, the request it posted
    if it got that far, the error that escaped it if any, and whether it
    scheduled a metrics refresh. *)
Record Run := {
  final : AppState;
  sent : option Payload;
  uncaught : option string;
  refresh_scheduled : bool
}.

Definition failedRun (s2 : Stamp) (msg : string) (sent : option Payload)
           (st : AppState) : Run :=
  let st := log s2 {| e_name := "Execute"; e_status := "failed";
                      e_message := msg; e_txHash := None |}
                (setError (Some msg) st) in
  {| final := setLoading (with_exec false) st; sent := sent;
     uncaught := None; refresh_scheduled := false |}.

Definition execAction (lib : Lib) (s1 s2 : Stamp)
           (resp : Outcome ExecResponse) (st : AppState) : Run :=
  match recommendation st, address st with
  | Some rec, Some addr =>
      if negb (provider st) || negb (JS.truthy (address st))
      then {| final := st; sent := None; uncaught := None;
              refresh_scheduled := false |}
      else
        let st := setError None (setLoading (with_exec true) st) in
        match AVAILABLE_ACTIONS !! action_id rec with
        | None =>
            (* [action.name] on undefined, before the [try] *)
            {| final := st; sent := None;
               uncaught :=
                 Some "Cannot read properties of undefined (reading 'name')";
               refresh_scheduled := false |}
        | Some action =>
            let st := log s1 {| e_name := "Execute"; e_status := "pending";
                                e_message := act_name action;
                                e_txHash := None |} st in
            match buildPayload lib addr rec action
                    (target st) (content st) (amount st) with
            | Rejected msg => failedRun s2 msg None st
            | Resolved payload =>
                match resp with
                | Rejected msg => failedRun s2 msg (Some payload) st
                | Resolved res =>
                    let txHash :=
                      JS.or_else (details res ≫= transactionHash)
                                 (details res ≫= details_txHash) in
                    let st :=
                      log s2 {| e_name := "Execute"; e_status := "success";
                                e_message := act_name action ++ " done";
                                e_txHash := txHash |} st in
                    let st :=
                      setInputs "" "" "1" (setRecommendation None st) in
                    {| final := setLoading (with_exec false) st;
                       sent := Some payload; uncaught := None;
                       refresh_scheduled := true |}
                end
            end
        end
  | _, _ => {| final := st; sent := None; uncaught := None;
               refresh_scheduled := false |}
  end.

(** *** The three handlers as attempts *)

(** What the log can undergo: [addLog], and the reset on disconnect. *)
Inductive LogOp :=
| Add (s : Stamp) (e : LogEntry)
| Clear.

Definition applyOp (l : list ActionLog) (op : LogOp) : list ActionLog :=
  match op with
  | Add s e => addLog s e l
  | Clear => []
  end.

(** One click on Refresh, Get Recommendation or Execute Action, with what
    the outside world answers to it. *)
Inductive Attempt :=
| FetchAttempt (chain : Outcome FetchedData) (r1 r2 : Q)
| RecommendAttempt (resp : Outcome ActionResponse)
| ExecuteAttempt (lib : Lib) (resp : Outcome ExecResponse).

Definition perform (a : Attempt) (s1 s2 : Stamp) (st : AppState) : AppState :=
  match a with
  | FetchAttempt chain r1 r2 => fetchMetrics s1 s2 chain r1 r2 st
  | RecommendAttempt resp => fst (getRecom s1 s2 resp st)
  | ExecuteAttempt lib resp => final (execAction lib s1 s2 resp st)
  end.

(** The entry guard of each handler; for an execution, also that the
    recommended action is one of the table. *)
Definition started (a : Attempt) (st : AppState) : bool :=
  match a with
  | FetchAttempt _ _ _ => JS.truthy (address st)
  | RecommendAttempt _ =>
      bool_decide (is_Some (metrics st)) && JS.truthy (address st)
  | ExecuteAttempt _ _ =>
      match recommendation st with
      | Some rec =>
          provider st && JS.truthy (address st)
          && bool_decide (is_Some (AVAILABLE_ACTIONS !! action_id rec))
      | None => false
      end
  end.

Definition terminal (l : ActionLog) : Prop :=
  status l = "success" \/ status l = "failed".

(** The checks [execAction] makes on the inputs of an action. *)
Definition paramsAccepted (lib : Lib) (action : ActionSpec) (st : AppState)
  : Prop :=
  (requires_param action "target" = true -> isAddress lib (target st) = true)
  /\ (requires_param action "content" = true -> content st <> "")
  /\ (requires_param action "amount" = true ->
      is_Some (parseUnitsAt lib (amount st) "18")).

(** An address test for the examples: [0x] and forty hexadecimal digits.
    [isAddress] accepts such a string when its letters are of one case,
    as they are in the examples. *)
Definition hex40 (s : string) : bool :=
  match s with
  | String "0" (String "x" body) =>
      (String.length body =? 40)%nat
      && forallb (fun c => bool_decide (is_Some (Ethers.hex_val c)))
                 (list_ascii_of_string body)
  | _ => false
  end.

(** The library in version 6, with a given address test and given
    messages of the errors [parseUnits] throws. *)
Definition ethers6 (isAddr : string -> bool) (err : string -> string) : Lib :=
  {| isAddress := isAddr; unitDecimals := Ethers.unitDecimals;
     parse_error := err |}.

(** The library for the examples. Its message gives the leading words of
    the error [parseUnits] throws on a unit it does not know; the library
    appends the argument, an error code and its own version. *)
Definition sampleLib : Lib := ethers6 hex40 (fun _ => "invalid unit").

(** Sample inputs for the examples. *)
Definition stampA : Stamp := {| uuid := "a"; now := 1 |}.
Definition stampB : Stamp := {| uuid := "b"; now := 2 |}.

(** A connected profile before anything was loaded. *)
Definition connected : AppState :=
  {| address := Some "0x00000000000000000000000000000000000000aa";
     provider := true; metrics := None; recommendation := None;
     logs := [];
     loading := {| l_metrics := false; l_recommend := false;
                   l_exec := false |};
     error := None; target := ""; content := ""; amount := "1" |}.

(** The same profile with a reward recommended, a target entered and the
    given amount in the amount field. *)
Definition rewardReady (amount : string) : AppState :=
  {| address := address connected; provider := true; metrics := None;
     recommendation :=
       Some {| action_id := 2; action_name := "Reward Follower" |};
     logs := []; loading := loading connected; error := None;
     target := "0x0000000000000000000000000000000000000abc";
     content := ""; amount := amount |}.

(** The same profile with a follow recommended and a target entered. *)
Definition followReady : AppState :=
  {| address := address connected; provider := true; metrics := None;
     recommendation :=
       Some {| action_id := 1; action_name := "Follow Profile" |};
     logs := []; loading := loading connected; error := None;
     target := "0x0000000000000000000000000000000000000abc";
     content := ""; amount := "1" |}.

Definition sampleData : FetchedData :=
  {| profile_value :=
       Some {| LSP3Profile :=
                 Some {| lsp3_name := Some "Alice";
                         lsp3_description := None;
                         profileImage := None |} |};
     issued_assets := Some ["0x01"; "0x02"; "0x03"] |}.

Definition confirmedResponse : Outcome ExecResponse :=
  Resolved {| details := Some {| transactionHash := Some "0xfeed";
                                 details_txHash := None |} |}.

End App.

(** ** [contracts/BadgeNFT.sol] *)

Module BadgeNFT.

Definition address := Z.
Definition bytes32 := Z.
Definition bytes := list Z.

(** A call either returns with the new storage or reverts. *)
Inductive TxResult (S : Type) : Type :=
| Success (s : S)
| Revert (reason : string).
Arguments Success {S} s.
Arguments Revert {S} reason.

(** What the contract inherits from [LSP8IdentifiableDigitalAsset]: the
    storage, [owner()] and the internal [_mint], which runs in the context
    of the external call and so sees its [msg.sender]. *)
Class LSP8 (Storage : Type) := {
  owner : Storage -> address;
  _mint : address -> address -> bytes32 -> bool -> bytes -> Storage ->
          TxResult Storage
}.

(** [function mint(address to, bytes32 tokenId, bool force, bytes data)
    external], called by [msg_sender]. *)
Definition mint `{LSP8 Storage} (msg_sender : address)
           (to : address) (tokenId : bytes32) (force : bool) (data : bytes)
           (s : Storage) : TxResult Storage :=
  _mint msg_sender to tokenId force data s.

(** What the base contract finds at a recipient when it notifies it of
    a transfer: an account without code, a contract that does not declare
    the LSP1 interface, or a contract that declares it, with whether its
    [universalReceiver] returns ([true]) or reverts on the notification
    of a mint of a token by an operator. *)
Inductive Recipient :=
| EOA
| ContractWithoutLSP1
| LSP1 (accepts : address -> bytes32 -> bytes -> bool).

(** A ledger for the base contract: the owner, the owner of each token
    and what is found at each address. *)
Record Ledger := {
  ledger_owner : address;
  tokenOwners : gmap Z address;
  recipients : address -> Recipient
}.

(** [_notifyTokenReceiver]: a recipient with LSP1 is called; any other
    one is an error unless [force] is set. [None] when it returns. *)
Definition notifyTokenReceiver (operator to : address) (tokenId : bytes32)
           (force : bool) (data : bytes) (s : Ledger) : option string :=
  match recipients s to with
  | LSP1 accepts =>
      if accepts operator tokenId data then None
      else Some "universalReceiver reverted"
  | ContractWithoutLSP1 =>
      if force then None
      else Some "LSP8NotifyTokenReceiverContractMissingLSP1Interface"
  | EOA =>
      if force then None else Some "LSP8NotifyTokenReceiverIsEOA"
  end.

(** The base [_mint]: the recipient is not the zero address, the token
    does not exist yet, the token is recorded, and the recipient is
    notified; a revert undoes the recording. *)
Definition ledger_mint (operator to : address) (tokenId : bytes32)
           (force : bool) (data : bytes) (s : Ledger) : TxResult Ledger :=
  if to =? 0 then Revert "LSP8CannotSendToAddressZero"
  else match tokenOwners s !! tokenId with
       | Some _ => Revert "LSP8TokenIdAlreadyMinted"
       | None =>
           match notifyTokenReceiver operator to tokenId force data s with
           | Some reason => Revert reason
           | None =>
               Success {| ledger_owner := ledger_owner s;
                          tokenOwners := <[tokenId := to]> (tokenOwners s);
                          recipients := recipients s |}
           end
       end.

#[export] Instance ledger_LSP8 : LSP8 Ledger :=
  {| owner := ledger_owner; _mint := ledger_mint |}.

(** The same ledger under another owner. *)
Definition owned_by (o : address) (s : Ledger) : Ledger :=
  {| ledger_owner := o; tokenOwners := tokenOwners s;
     recipients := recipients s |}.

(** A ledger without tokens on which every address is an account without
    code. *)
Definition emptyLedger (o : address) : Ledger :=
  {| ledger_owner := o; tokenOwners := ∅; recipients := fun _ => EOA |}.

End BadgeNFT.

(** ** [scripts/configureKeyManager.js] *)

Module KeyManager.

(** The environment variables the script reads. *)
Record Env := {
  TESTNET_RPC_URL : option string;
  DEPLOYER_PRIVATE_KEY : option string;
  TARGET_UP_ADDRESS : option string;
  AGENT_EOA_ADDRESS : option string;
  THANK_YOU_TOKEN_ADDRESS : option string;
  BADGE_NFT_ADDRESS : option string
}.

(** The script exits at once unless these five variables are set. *)
Definition configured (env : Env) : bool :=
  JS.truthy (DEPLOYER_PRIVATE_KEY env) && JS.truthy (TARGET_UP_ADDRESS env)
  && JS.truthy (AGENT_EOA_ADDRESS env) && JS.truthy (TESTNET_RPC_URL env)
  && JS.truthy (THANK_YOU_TOKEN_ADDRESS env).

(** [ethers.id(text)]: the Keccak-256 hash of the UTF-8 bytes, as a hex
    string. *)
Definition id (text : string) : string :=
  Ethers.hexlify (Keccak.keccak256 (Ethers.toUtf8Bytes text)).

(** What the script takes from the ABI coder:
    [decode(['bytes4'], data)[0]], or [None] when the coder throws. *)
Record AbiCoder := { decode_bytes4 : string -> option (list Z) }.

(** The coder of the library. In version 6 [getAbiCoder] is a method of
    an [Interface] object, so the call on the class throws before
    anything is decoded; a coder reached another way throws on the four
    bytes it is given. Either way the script gets no selector. *)
Definition ethersCoder : AbiCoder :=
  {| decode_bytes4 := Ethers.decodeBytes4 |}.

(** [decode(['bytes4'], ethers.id(signature).slice(0, 10))[0]] *)
Definition functionSelector (abi : AbiCoder) (signature : string)
  : option (list Z) :=
  decode_bytes4 abi (String.substring 0 10 (id signature)).

(** The selector of a signature as the encoder must compute it: the four
    leading bytes of the hash of the signature string. *)
Definition selectorOf (signature : string) : list Z :=
  firstn 4 (Keccak.keccak256 (Ethers.toUtf8Bytes signature)).

Definition LSP7_TRANSFER : string :=
  "transfer(address,address,uint256,bool,bytes)".
Definition LSP8_TRANSFER : string :=
  "transfer(address,address,bytes32,bool,bytes)".

Definition tokenTransferSelector (abi : AbiCoder) : option (list Z) :=
  functionSelector abi LSP7_TRANSFER.
Definition nftTransferSelector (abi : AbiCoder) : option (list Z) :=
  functionSelector abi LSP8_TRANSFER.

(** The flags given to [ERC725.encodePermissions]. *)
Inductive Permission := SETDATA | CALL.

Definition upPermissions : list Permission := [SETDATA; CALL].
Definition lsp7Permissions : list Permission := [CALL].
Definition lsp8Permissions : list Permission := [CALL].

Record AllowedCall := {
  ac_address : string;
  interfaceId : string;
  permissionType : string;
  allowedFunctions : list (list Z)
}.

Inductive EntryValue :=
| PermissionsValue (ps : list Permission)
| AllowedCallsValue (calls : list AllowedCall).

(** One element of the array given to [erc725.encodeData]. *)
Record Entry := {
  keyName : string;
  dynamicKeyParts : string;
  value : EntryValue
}.

Definition CALL_TYPE : string :=
  "0x0000000000000000000000000000000000000000000000000000000000000001".

(** The array given to [erc725.encodeData]; [None] when the script exits
    for a missing variable or computing a selector throws. *)
Definition permissionEntries (abi : AbiCoder) (env : Env)
  : option (list Entry) :=
  if negb (configured env) then None else
  sel7 ← tokenTransferSelector abi;
  sel8 ← nftTransferSelector abi;
  Some
    [ {| keyName := "AddressPermissions:Permissions:<address>";
         dynamicKeyParts := default "" (AGENT_EOA_ADDRESS env);
         value := PermissionsValue upPermissions |};
      {| keyName := "AddressPermissions:AllowedCalls:<address>";
         dynamicKeyParts := default "" (AGENT_EOA_ADDRESS env);
         value :=
           AllowedCallsValue
             ({| ac_address := default "" (THANK_YOU_TOKEN_ADDRESS env);
                 interfaceId := "0x00000000";
                 permissionType := CALL_TYPE;
                 allowedFunctions := [sel7] |}
              :: (if JS.truthy (BADGE_NFT_ADDRESS env)
                  then [ {| ac_address :=
                              default "" (BADGE_NFT_ADDRESS env);
                            interfaceId := "0x00000000";
                            permissionType := CALL_TYPE;
                            allowedFunctions := [sel8] |} ]
                  else [])) |} ].

(** An environment without a badge contract, for the examples. *)
Definition sampleEnv : Env :=
  {| TESTNET_RPC_URL := Some "https://rpc.testnet.lukso.network";
     DEPLOYER_PRIVATE_KEY :=
       Some "0x0000000000000000000000000000000000000000000000000000000000000001";
     TARGET_UP_ADDRESS := Some "0x00000000000000000000000000000000000000aa";
     AGENT_EOA_ADDRESS := Some "0x00000000000000000000000000000000000000bb";
     THANK_YOU_TOKEN_ADDRESS :=
       Some "0x00000000000000000000000000000000000000cc";
     BADGE_NFT_ADDRESS := None |}.

End KeyManager.

(** ** The Policy Store of the back end *)

Module PolicyStore.

(** Normalized follower count, post count and engagement rate. *)
Record Observation := { obs_followers : Q; obs_posts : Q; obs_engagement : Q }.

Definition unit_interval (x : Q) : Prop := (0 <= x /\ x <= 1)%Q.

Definition valid (o : Observation) : Prop :=
  unit_interval (obs_followers o) /\ unit_interval (obs_posts o)
  /\ unit_interval (obs_engagement o).

Definition N_ACTIONS : nat := 3.

(** A loaded policy artifact: the estimated value of each action id. *)
Record PolicySession := { value : Observation -> nat -> Q }.

(** Modelled from the spec: the Policy Store lives in the Python back end
    ([backend/rl_agent]), which is not among the sources.  The best of the
    ids [0 .. n], ties broken by the lowest id: a later id replaces the
    current best only when its value is strictly higher. *)
Fixpoint argmax (v : nat -> Q) (n : nat) : nat :=
  match n with
  | O => O
  | S n' =>
      let best := argmax v n' in
      if Qle_bool (v (S n')) (v best) then best else S n'
  end.

(** Modelled from the spec: the greedy choice of section 4.2, the action
    with the highest estimated value for the observation. *)
Definition greedy (p : PolicySession) (o : Observation) : nat :=
  argmax (value p o) (N_ACTIONS - 1).

(** The random draws an exploring selection consumes: a uniform number in
    the unit interval and a uniform action id. *)
Record Draw := { coin : Q; pick : nat }.

(** Modelled from the spec: [PolicySession.selectAction] of the missing
    back end (section 4.2).  With [explore] false the selection is greedy;
    with [explore] true it picks uniformly among the three actions with
    probability [epsilon] and is greedy otherwise. *)
Definition selectAction (p : PolicySession) (epsilon : Q) (d : Draw)
           (o : Observation) (explore : bool) : nat :=
  if explore && negb (Qle_bool epsilon (coin d))
  then (pick d mod N_ACTIONS)%nat
  else greedy p o.

(** The display names of the fixed action table (section 4.3). *)
Definition actionName (a : nat) : string :=
  match a with
  | 0%nat => "Make Post"
  | 1%nat => "Follow Profile"
  | _ => "Reward Follower"
  end.

(** Fixed weights favouring action 1, for the end-to-end scenario. *)
Definition followFirst : PolicySession :=
  {| value := fun o a =>
       match a with
       | 0%nat => obs_posts o
       | 1%nat => (1 + obs_followers o)%Q
       | _ => obs_engagement o
       end |}.

End PolicyStore.

(** ** The Action Executor of the back end *)

Module ActionExecutor.

Inductive ExecError :=
| InvalidParameters
| SubmissionError
| ExecutionReverted (reason : option string).

Inductive ExecutionResult :=
| Confirmed (transactionHash : string)
| Failed (e : ExecError).

(** What the network answers to one submission. *)
Inductive Submission :=
| RejectedBeforeInclusion
| Included (transactionHash : string) (receipt_ok : bool)
           (reason : option string).

Definition DEFAULT_RETRIES : nat := 3.

(** The answer the network gives to the attempt of each rank. *)
Definition Network := nat -> Submission.

(** Modelled from the spec: the [Submitted] state of the missing back
    end's executor (section 4.5).  Submits from attempt [k] on with
    [budget] attempts left: a submission rejected before inclusion is
    retried, exhausting the budget fails with [SubmissionError], an
    included transaction ends the request, [Confirmed] when its receipt
    succeeds and [ExecutionReverted] otherwise.  Returns the result and
    the number of submissions made. *)
Fixpoint submit (net : Network) (budget k : nat) : ExecutionResult * nat :=
  match budget with
  | O => (Failed SubmissionError, k)
  | S budget' =>
      match net k with
      | RejectedBeforeInclusion => submit net budget' (S k)
      | Included h true _ => (Confirmed h, S k)
      | Included _ false reason => (Failed (ExecutionReverted reason), S k)
      end
  end.

Inductive Action := Post | Follow | Reward.

Definition required (a : Action) : list string :=
  match a with
  | Post => ["content"]
  | Follow => ["target"]
  | Reward => ["target"; "amount"]
  end.

Record ActionRequest := {
  profile : string;
  action : Action;
  params : gmap string string
}.

(** Modelled from the spec: the invariant of section 3 on one parameter of
    the missing executor's request: address-shaped for [target], non-empty
    for [content], a positive integer for [amount]. *)
Definition wellFormed (param v : string) : bool :=
  if String.eqb param "target" then App.hex40 v
  else if String.eqb param "content" then negb (String.eqb v "")
  else if String.eqb param "amount" then
    forallb Ethers.is_digit (list_ascii_of_string v)
    && (0 <? Ethers.digits_value (list_ascii_of_string v))
  else false.

(** Modelled from the spec: the [Validating] state of the missing
    executor: every required parameter is present and well formed. *)
Definition validate (r : ActionRequest) : bool :=
  forallb (fun p => match params r !! p with
                    | Some v => wellFormed p v
                    | None => false
                    end)
          (required (action r)).

(** Modelled from the spec: [execute] of the missing back end's executor
    (section 4.5): validation first, and no submission when it fails, then
    the bounded submission loop. *)
Definition execute (retries : nat) (r : ActionRequest) (net : Network)
  : ExecutionResult * nat :=
  if validate r then submit net retries 0
  else (Failed InvalidParameters, 0%nat).

(** The reward request of the end-to-end scenario. *)
Definition sampleReward : ActionRequest :=
  {| profile := "0x00000000000000000000000000000000000000aa";
     action := Reward;
     params :=
       <["target" := "0x0000000000000000000000000000000000000abc"]>
       (<["amount" := "1000000000000000000"]> ∅) |}.

(** A network that rejects every submission. *)
Definition alwaysRejects : Network := fun _ => RejectedBeforeInclusion.

End ActionExecutor.

(** ** [scripts/deploy.js] *)

Module Deploy.

(** The variables [main] needs. *)
Record Env := {
  DEPLOYER_PRIVATE_KEY : option string;
  TARGET_UP_ADDRESS : option string;
  TESTNET_RPC_URL : option string
}.

Definition configured (env : Env) : bool :=
  JS.truthy (DEPLOYER_PRIVATE_KEY env) && JS.truthy (TARGET_UP_ADDRESS env)
  && JS.truthy (TESTNET_RPC_URL env).

(** Text as JavaScript holds it, a sequence of UTF-16 code units; the
    strings of the script are ASCII. *)
Definition code_units (s : string) : list N :=
  map N_of_ascii (list_ascii_of_string s).

(** The characters the dot of a regular expression does not match. *)
Definition is_line_terminator (c : N) : bool :=
  ((c =? 10) || (c =? 13) || (c =? 0x2028) || (c =? 0x2029))%N.

Fixpoint starts_with (key text : list N) : bool :=
  match key, text with
  | [], _ => true
  | k :: key', c :: text' => (k =? c)%N && starts_with key' text'
  | _ :: _, [] => false
  end.

(** [text.replace(/KEY.*/g, replacement)], for a literal [KEY] without line
    terminator and a replacement without dollar sign: at each place where
    the key starts, the key and the rest of the line give way to the
    replacement, and the search goes on at the end of that line.
    [in_match] tells that the characters read belong to a match. *)
Fixpoint replace_from (key replacement : list N) (in_match : bool)
         (text : list N) : list N :=
  match text with
  | [] => []
  | c :: text' =>
      if in_match && negb (is_line_terminator c)
      then replace_from key replacement true text'
      else if starts_with key text
           then replacement ++ replace_from key replacement true text'
           else c :: replace_from key replacement false text'
  end.

(** [NAME=] *)
Definition assignment (name : string) : list N := code_units (name ++ "=").

(** [envContent.replace(/NAME=.*/g, `NAME=${value}`)] *)
Definition replaceAssignment (name : string) (value text : list N) : list N :=
  replace_from (assignment name) (assignment name ++ value) false text.

(** The two replacements before the first [writeFileSync]. *)
Definition updateEnv (token badge content : list N) : list N :=
  replaceAssignment "BADGE_NFT_ADDRESS" badge
    (replaceAssignment "THANK_YOU_TOKEN_ADDRESS" token content).

(** The two replacements before the second [writeFileSync]. *)
Definition updateReactEnv (token badge content : list N) : list N :=
  replaceAssignment "REACT_APP_BADGE_NFT_ADDRESS" badge
    (replaceAssignment "REACT_APP_THANK_YOU_TOKEN_ADDRESS" token content).

(** What the outside world answers to one run: the addresses of the two
    deployments, the content of the [.env] file, and the errors of the two
    writes, if they throw. *)
Record World := {
  tokenDeployment : App.Outcome (list N);
  badgeDeployment : App.Outcome (list N);
  envFile : App.Outcome (list N);
  firstWriteError : option string;
  secondWriteError : option string
}.

(** One run of [main]: the contracts deployed, the contents written to
    the [.env] file in order, and the exit code. *)
Record Run := {
  deployed : list string;
  written : list (list N);
  exitCode : Z
}.

Definition main (env : Env) (w : World) : Run :=
  if negb (configured env)
  then {| deployed := []; written := []; exitCode := 1 |}
  else
    match tokenDeployment w with
    | App.Rejected _ => {| deployed := []; written := []; exitCode := 1 |}
    | App.Resolved tyTokenAddress =>
        match badgeDeployment w with
        | App.Rejected _ =>
            {| deployed := ["ThankYouToken"]; written := []; exitCode := 1 |}
        | App.Resolved badgeNftAddress =>
            let both := ["ThankYouToken"; "BadgeNFT"] in
            match envFile w with
            | App.Rejected _ =>
                {| deployed := both; written := []; exitCode := 1 |}
            | App.Resolved envContent =>
                let envContent :=
                  updateEnv tyTokenAddress badgeNftAddress envContent in
                match firstWriteError w with
                | Some _ =>
                    {| deployed := both; written := []; exitCode := 1 |}
                | None =>
                    let envContent' :=
                      updateReactEnv tyTokenAddress badgeNftAddress
                        envContent in
                    match secondWriteError w with
                    | Some _ =>
                        {| deployed := both; written := [envContent];
                           exitCode := 1 |}
                    | None =>
                        {| deployed := both;
                           written := [envContent; envContent'];
                           exitCode := 0 |}
                    end
                end
            end
        end
    end.

(** An address as [getAddress()] returns it: [0x] and forty hexadecimal
    digits. *)
Definition is_hex (c : N) : bool :=
  ((48 <=? c) && (c <=? 57) || (65 <=? c) && (c <=? 70)
   || (97 <=? c) && (c <=? 102))%N.

Definition addressText (a : list N) : bool :=
  match a with
  | c0 :: c1 :: body =>
      (c0 =? 48)%N && (c1 =? 120)%N && (length body =? 40)%nat
      && forallb is_hex body
  | _ => false
  end.

(** The key occurs somewhere in the text. *)
Definition occurs (key text : list N) : Prop :=
  exists pre post, text = (pre ++ key ++ post)%list.

(** The text is at its end or at the end of a line. *)
Definition ends_line (text : list N) : Prop :=
  match text with
  | [] => True
  | c :: _ => is_line_terminator c = true
  end.

(** The text goes on with the value and then the line ends. *)
Definition follows (value text : list N) : Prop :=
  exists tail, text = (value ++ tail)%list /\ ends_line tail.

(** Wherever the key occurs in the text, the value and the end of the
    line follow. *)
Definition assigns (key value text : list N) : Prop :=
  forall pre post, text = (pre ++ key ++ post)%list -> follows value post.

(** [assigns] read off character by character, for a key that is a body
    followed by a marker; [before] is the text already read. *)
Fixpoint settled (body : list N) (marker : N) (value before text : list N)
  : Prop :=
  match text with
  | [] => True
  | c :: text' =>
      (c = marker -> body `suffix_of` before -> follows value text')
      /\ settled body marker value (before ++ [c]) text'
  end.

(** Wherever [key1] occurs in the text at a place where no replacement of
    [key2] starts, [value1] and the end of the line follow. *)
Definition untouched_ok (key2 key1 value1 text : list N) : Prop :=
  forall rest, rest `suffix_of` text -> starts_with key2 rest = false ->
               forall post, rest = (key1 ++ post)%list -> follows value1 post.

(** The equals sign that ends every key. *)
Definition EQUALS : N := 61%N.

(** A key body as the script has them: not empty, on one line, without
    equals sign. *)
Definition key_ok (body : list N) : bool :=
  negb (length body =? 0)%nat
  && forallb (fun c => negb (is_line_terminator c) && negb (c =? EQUALS)%N)
             body.

(** The line terminators of a text, in order. *)
Definition line_breaks (text : list N) : list N :=
  List.filter is_line_terminator text.

(** [occurs] as a test. *)
Fixpoint occursb (key text : list N) : bool :=
  starts_with key text
  || match text with
     | [] => false
     | _ :: text' => occursb key text'
     end.

(** No character of the text is a line terminator. *)
Definition plain (text : list N) : Prop :=
  Forall (fun c => is_line_terminator c = false) text.

(** Sample inputs for the examples. *)
Definition sampleEnv : Env :=
  {| DEPLOYER_PRIVATE_KEY :=
       Some "0x0000000000000000000000000000000000000000000000000000000000000001";
     TARGET_UP_ADDRESS := Some "0x00000000000000000000000000000000000000aa";
     TESTNET_RPC_URL := Some "https://rpc.testnet.lukso.network" |}.

Definition tokenAt : list N :=
  code_units "0x00000000000000000000000000000000000000c7".
Definition badgeAt : list N :=
  code_units "0x00000000000000000000000000000000000000c8".

(** A [.env] file with a comment, the two keys and their [REACT_APP_]
    variants. *)
Definition sampleFile : list N :=
  code_units "# addresses" ++ [10%N]
  ++ code_units "THANK_YOU_TOKEN_ADDRESS=0xold" ++ [10%N]
  ++ code_units "BADGE_NFT_ADDRESS=" ++ [13%N; 10%N]
  ++ code_units "REACT_APP_THANK_YOU_TOKEN_ADDRESS=0xold # token" ++ [10%N]
  ++ code_units "REACT_APP_BADGE_NFT_ADDRESS=0xold".

(** A run in which nothing fails: the two addresses and the file read. *)
Definition readyWorld (token badge file : list N) : World :=
  {| tokenDeployment := App.Resolved token;
     badgeDeployment := App.Resolved badge;
     envFile := App.Resolved file;
     firstWriteError := None; secondWriteError := None |}.

Definition sampleWorld (file : list N) : World :=
  readyWorld tokenAt badgeAt file.

End Deploy.

(** ** More sample inputs *)

Module Samples.
Import App.

(** A profile whose first image has no [url]. *)
Definition imageWithoutUrl : FetchedData :=
  {| profile_value :=
       Some {| LSP3Profile :=
                 Some {| lsp3_name := Some "Alice";
                         lsp3_description := None;
                         profileImage := Some [ {| url := None |} ] |} |};
     issued_assets := None |}.

(** A profile with one image at the given [url]. *)
Definition imageAt (u : string) : option LSP3ProfileJson :=
  Some {| lsp3_name := None; lsp3_description := None;
          profileImage := Some [ {| url := Some u |} ] |}.

(** A profile with an image stored on IPFS. *)
Definition imageOnIpfs (cid : string) : option LSP3ProfileJson :=
  imageAt ("ipfs://" ++ cid).

(** A state with metrics loaded and a recommendation shown. *)
Definition recommended : AppState :=
  {| address := address connected; provider := true;
     metrics := Some {| followers := 250; postsCount := 3;
                        engagementRate := 50 # 1000;
                        profileName := Some "Alice";
                        profileImageCid := None;
                        description := Some "" |};
     recommendation :=
       Some {| action_id := 0; action_name := "Make Post" |};
     logs := []; loading := loading connected; error := None;
     target := ""; content := "hello"; amount := "1" |}.

End Samples.

(** ** Readings used in the statements *)

Module Views.
Import App.

(** A run of [addLog] calls, the first of the list first. *)
Definition addLogs (entries : list (Stamp * LogEntry)) (l : list ActionLog)
  : list ActionLog :=
  fold_left (fun l se => addLog (fst se) (snd se) l) entries l.

End Views.

(** ** [scripts/configureKeyManager.js]: one run *)

Module Configure.
Import KeyManager.

(** What the network answers to one run: [up.owner()], which gives the
    address of the key manager, and [setDataBatch] followed by
    [tx.wait()], which gives the transaction hash. *)
Record World := {
  ownerCall : App.Outcome string;
  transaction : App.Outcome string
}.

(** One run of the script: the entries it proposed to the key manager, if
    it got that far, the hash of the transaction it reported as set, and
    the exit code. *)
Record Run := {
  proposed : option (list Entry);
  confirmed : option string;
  exitCode : Z
}.

(** The check of the variables exits with code 1. Past it, an error
    thrown before the [try] block ends in [.catch(console.error)] and one
    thrown inside it in [console.error]: both leave the exit code at 0. *)
Definition configureKeyManager (abi : AbiCoder) (env : Env) (w : World)
  : Run :=
  if negb (configured env)
  then {| proposed := None; confirmed := None; exitCode := 1 |}
  else
    match ownerCall w with
    | App.Rejected _ =>
        {| proposed := None; confirmed := None; exitCode := 0 |}
    | App.Resolved keyManagerAddress =>
        match permissionEntries abi env with
        | None => {| proposed := None; confirmed := None; exitCode := 0 |}
        | Some permissionData =>
            match transaction w with
            | App.Resolved hash =>
                {| proposed := Some permissionData; confirmed := Some hash;
                   exitCode := 0 |}
            | App.Rejected _ =>
                {| proposed := Some permissionData; confirmed := None;
                   exitCode := 0 |}
            end
        end
    end.

(** A network on which the transaction reverts. *)
Definition revertingWorld : World :=
  {| ownerCall := App.Resolved "0x00000000000000000000000000000000000000dd";
     transaction := App.Rejected "execution reverted" |}.

End Configure.

(** * Properties *)

(** ** The action table *)

Section ActionTable.
Import App.

Lemma available_actions_lookup (i : Z) :
  AVAILABLE_ACTIONS !! i =
    if decide (i = 0) then
      Some {| act_name := "Make Post"; requires := Some ["content"] |}
    else if decide (i = 1) then
      Some {| act_name := "Follow Profile"; requires := Some ["target"] |}
    else if decide (i = 2) then
      Some {| act_name := "Reward Follower";
              requires := Some ["target"; "amount"] |}
    else None.
Proof.
  unfold AVAILABLE_ACTIONS.
  repeat case_decide; subst; simplify_map_eq; reflexivity.
Qed.

(** C4: the action table has exactly the ids 0, 1 and 2, named 'Make
    Post', 'Follow Profile' and 'Reward Follower', requiring [content],
    [target], and [target] with [amount]; id 1 is always "Follow Profile". *)
Theorem action_table_exact :
  dom AVAILABLE_ACTIONS = ({[0; 1; 2]} : gset Z)
  /\ AVAILABLE_ACTIONS !! 0
     = Some {| act_name := "Make Post"; requires := Some ["content"] |}
  /\ AVAILABLE_ACTIONS !! 1
     = Some {| act_name := "Follow Profile"; requires := Some ["target"] |}
  /\ AVAILABLE_ACTIONS !! 2
     = Some {| act_name := "Reward Follower";
               requires := Some ["target"; "amount"] |}
  /\ (forall i, is_Some (AVAILABLE_ACTIONS !! i) <-> i = 0 \/ i = 1 \/ i = 2)
  /\ (forall a, AVAILABLE_ACTIONS !! 1 = Some a -> act_name a = "Follow Profile").
Proof.
  split; [| split; [| split; [| split; [| split]]]].
  - unfold AVAILABLE_ACTIONS. rewrite !dom_insert_L, dom_empty_L.
    set_solver.
  - rewrite available_actions_lookup; reflexivity.
  - rewrite available_actions_lookup; reflexivity.
  - rewrite available_actions_lookup; reflexivity.
  - intros i. rewrite available_actions_lookup.
    repeat case_decide; subst; split; intros Hi;
      try (eexists; reflexivity); try lia; auto.
    destruct Hi as [x Hx]; discriminate.
  - intros a. rewrite available_actions_lookup. simpl.
    intros [= <-]. reflexivity.
Qed.

End ActionTable.

(** ** The activity log *)

Section ActivityLog.
Import App.

Lemma addLog_cons s e l : addLog s e l = stamped s e :: firstn 49 l.
Proof. reflexivity. Qed.

Lemma addLog_length s e l :
  length (addLog s e l) = Nat.min LOG_CAP (S (length l)).
Proof. unfold addLog, JS.slice0. rewrite length_take. reflexivity. Qed.

Lemma applyOp_bounded l op :
  (length l <= LOG_CAP)%nat -> (length (applyOp l op) <= LOG_CAP)%nat.
Proof.
  destruct op as [s e |]; cbn [applyOp]; intros Hl.
  - rewrite addLog_length. lia.
  - simpl. lia.
Qed.

Lemma log_ops_bounded ops : forall l,
  (length l <= LOG_CAP)%nat ->
  (length (fold_left applyOp ops l) <= LOG_CAP)%nat.
Proof.
  induction ops as [| op ops IH]; intros l H; simpl; [exact H |].
  apply IH, applyOp_bounded, H.
Qed.

(** C7, as the code has it: the log is a bounded buffer with the newest
    entry first. [addLog], the only operation that adds entries, puts the
    new entry in front and leaves the entries it keeps as they were and in
    their order; past the cap of 50 the oldest entries are dropped; the one
    other write empties the log when the profile disconnects; and whatever
    sequence of these operations runs from the empty log, the length never
    exceeds the cap. *)
Theorem log_prepend_bounded :
  (forall s e l,
      addLog s e l = stamped s e :: firstn (LOG_CAP - 1) l
      /\ (forall i x, (S i < LOG_CAP)%nat -> l !! i = Some x ->
                      addLog s e l !! S i = Some x)
      /\ (forall i, (LOG_CAP <= S i)%nat -> addLog s e l !! S i = None)
      /\ (length (addLog s e l) <= LOG_CAP)%nat)
  /\ (forall st, logs (onDisconnect st) = applyOp (logs st) Clear)
  /\ (forall ops, (length (fold_left applyOp ops []) <= LOG_CAP)%nat).
Proof.
  split; [| split].
  - intros s e l. rewrite addLog_cons. repeat split.
    + intros i x Hi Hx. simpl. rewrite lookup_take_lt; [exact Hx |].
      unfold LOG_CAP in Hi. lia.
    + intros i Hi. simpl. apply lookup_ge_None_2.
      rewrite length_take. unfold LOG_CAP in Hi. lia.
    + simpl. rewrite length_take. unfold LOG_CAP. lia.
  - intros st. reflexivity.
  - intros ops. apply log_ops_bounded. simpl. lia.
Qed.

(** A full log of 50 entries stays at 50 after one more [addLog], and
    its first entry has moved to the second place. *)
Lemma log_prepend_bounded_witness :
  let full := repeat (stamped stampA
                        {| e_name := "Recommend"; e_status := "pending";
                           e_message := "Agent thinking...";
                           e_txHash := None |}) 50 in
  let e := {| e_name := "Recommend"; e_status := "success";
              e_message := "Follow Profile"; e_txHash := None |} in
  (S 0 < LOG_CAP)%nat
  /\ full !! 0%nat = Some (stamped stampA
                             {| e_name := "Recommend";
                                e_status := "pending";
                                e_message := "Agent thinking...";
                                e_txHash := None |})
  /\ addLog stampB e full !! 1%nat = full !! 0%nat
  /\ (length (addLog stampB e full) <= LOG_CAP)%nat.
Proof.
  intros full e.
  assert (Hcap : (S 0 < LOG_CAP)%nat) by (unfold LOG_CAP; lia).
  assert (Hfull : full !! 0%nat
                  = Some (stamped stampA
                            {| e_name := "Recommend";
                               e_status := "pending";
                               e_message := "Agent thinking...";
                               e_txHash := None |})) by reflexivity.
  destruct (proj1 log_prepend_bounded stampB e full)
    as [_ [Hkeep [_ Hlen]]].
  split; [exact Hcap |]. split; [exact Hfull |]. split; [| exact Hlen].
  rewrite Hfull. exact (Hkeep 0%nat _ Hcap Hfull).
Defined.

(** C7 as stated fails: the reset on disconnect is an operation on the log
    that prepends nothing and removes an entry well below the cap. *)
Lemma disconnect_empties_log :
  let e := {| e_name := "Fetch Metrics"; e_status := "success";
              e_message := "Loaded Alice"; e_txHash := None |} in
  let st := log stampA e connected in
  logs st = [stamped stampA e]
  /\ logs (onDisconnect st) = []
  /\ ~ exists added,
        logs (onDisconnect st) = JS.slice0 LOG_CAP (added ++ logs st).
Proof.
  intros e st. split; [reflexivity |]. split; [reflexivity |].
  intros [added Hadded]. destruct added as [| a added]; discriminate Hadded.
Qed.

End ActivityLog.

(** ** [BadgeNFT.mint] *)

Section Mint.
Import BadgeNFT.

(** C9: [mint] has no access control. Over any LSP8 base, for every caller
    and all arguments, the call is the inherited [_mint] on those
    arguments, so nothing in [mint] reverts it. On the ledger of the base
    contract, whoever calls, a token is minted exactly when the checks of
    [_mint] pass: the recipient is not the zero address, the token id is
    fresh, and the recipient takes the notification, which a recipient
    without LSP1 does only under [force]. Who owns the contract plays no
    part in it, and but for what the recipient's own [universalReceiver]
    makes of the operator, neither does who calls. *)
Theorem mint_unrestricted :
  (forall Storage (base : LSP8 Storage) (caller to : address)
          (tokenId : bytes32) (force : bool) (data : bytes) (s : Storage),
      mint caller to tokenId force data s
      = _mint caller to tokenId force data s)
  /\ (forall (caller to : address) (tokenId : bytes32) (force : bool)
             (data : bytes) (s : Ledger),
        (to <> 0 /\ tokenOwners s !! tokenId = None
         /\ notifyTokenReceiver caller to tokenId force data s = None)
        <-> mint caller to tokenId force data s
            = Success {| ledger_owner := ledger_owner s;
                         tokenOwners := <[tokenId := to]> (tokenOwners s);
                         recipients := recipients s |})
  /\ (forall (caller to : address) (tokenId : bytes32) (force : bool)
             (data : bytes) (s : Ledger),
        (exists s', mint caller to tokenId force data s = Success s')
        \/ (exists reason, mint caller to tokenId force data s = Revert reason
                           /\ (to = 0 \/ is_Some (tokenOwners s !! tokenId)
                               \/ notifyTokenReceiver caller to tokenId force
                                    data s = Some reason)))
  /\ (forall (o caller to : address) (tokenId : bytes32) (force : bool)
             (data : bytes) (s : Ledger),
        mint caller to tokenId force data (owned_by o s)
        = match mint caller to tokenId force data s with
          | Success s' => Success (owned_by o s')
          | Revert reason => Revert reason
          end)
  /\ (forall (caller caller' to : address) (tokenId : bytes32) (force : bool)
             (data : bytes) (s : Ledger),
        (forall accepts, recipients s to <> LSP1 accepts) ->
        mint caller to tokenId force data s
        = mint caller' to tokenId force data s).
Proof.
  split; [reflexivity |]. split; [| split; [| split]].
  - intros caller to tokenId force data s. unfold mint. cbn [_mint ledger_LSP8].
    unfold ledger_mint. split.
    + intros [Hto [Hfresh Hnotify]].
      destruct (Z.eqb_spec to 0) as [-> | _]; [contradiction |].
      rewrite Hfresh, Hnotify. reflexivity.
    + destruct (Z.eqb_spec to 0) as [-> | Hto]; [discriminate |].
      destruct (tokenOwners s !! tokenId); [discriminate |].
      destruct (notifyTokenReceiver caller to tokenId force data s);
        [discriminate |].
      intros _. auto.
  - intros caller to tokenId force data s. unfold mint. cbn [_mint ledger_LSP8].
    unfold ledger_mint.
    destruct (Z.eqb_spec to 0) as [-> | Hto];
      [right; eexists; split; [reflexivity | left; reflexivity] |].
    destruct (tokenOwners s !! tokenId) as [holder |];
      [right; eexists; split; [reflexivity | right; left; eexists; reflexivity]
      |].
    destruct (notifyTokenReceiver caller to tokenId force data s)
      as [reason |].
    + right. exists reason. split; [reflexivity | right; right; reflexivity].
    + left. eexists. reflexivity.
  - intros o caller to tokenId force data s. unfold mint.
    cbn [_mint ledger_LSP8]. unfold ledger_mint, notifyTokenReceiver.
    cbn [tokenOwners recipients owned_by ledger_owner].
    destruct (to =? 0); [reflexivity |].
    destruct (tokenOwners s !! tokenId); [reflexivity |].
    destruct (recipients s to) as [| | accepts];
      [destruct force; reflexivity | destruct force; reflexivity |].
    destruct (accepts caller tokenId data); reflexivity.
  - intros caller caller' to tokenId force data s Hplain. unfold mint.
    cbn [_mint ledger_LSP8]. unfold ledger_mint, notifyTokenReceiver.
    destruct (recipients s to) as [| | accepts] eqn:Hr;
      [reflexivity | reflexivity |].
    destruct (Hplain accepts eq_refl).
Qed.

(** An account that is not the owner mints a fresh badge to an account of
    its choice; without [force] the same call reverts, for the owner as
    for anyone. *)
Lemma mint_unrestricted_witness :
  7 <> owner (emptyLedger 1)
  /\ mint 7 9 42 true [] (emptyLedger 1)
     = Success {| ledger_owner := 1; tokenOwners := <[42 := 9]> ∅;
                  recipients := fun _ => EOA |}
  /\ mint 7 9 42 false [] (emptyLedger 1)
     = mint 1 9 42 false [] (emptyLedger 1).
Proof.
  split; [simpl; lia |]. split.
  - apply (proj1 (proj2 mint_unrestricted) 7 9 42 true [] (emptyLedger 1)).
    split; [lia |]. split; reflexivity.
  - apply (proj2 (proj2 (proj2 (proj2 mint_unrestricted)))
             7 1 9 42 false [] (emptyLedger 1)).
    intros accepts H. discriminate H.
Defined.

End Mint.

(** ** The Action Executor: bounded retries *)

Section Retries.
Import ActionExecutor.

Lemma submit_attempts_bounded net : forall budget k,
  (k <= snd (submit net budget k) <= k + budget)%nat.
Proof.
  induction budget as [| b IH]; intros k; simpl; [lia |].
  destruct (net k) as [| h [|] reason]; simpl; try lia.
  specialize (IH (S k)). lia.
Qed.

Lemma submit_all_rejected net : forall budget k,
  (forall j, (k <= j < k + budget)%nat -> net j = RejectedBeforeInclusion) ->
  submit net budget k = (Failed SubmissionError, (k + budget)%nat).
Proof.
  induction budget as [| b IH]; intros k Hrej; simpl.
  - f_equal. lia.
  - rewrite Hrej by lia. rewrite IH.
    + f_equal. lia.
    + intros j Hj. apply Hrej. lia.
Qed.

Lemma submit_stops_at_inclusion net h ok reason : forall n budget k,
  (n < budget)%nat ->
  (forall j, (k <= j < k + n)%nat -> net j = RejectedBeforeInclusion) ->
  net (k + n)%nat = Included h ok reason ->
  submit net budget k
  = (if ok then Confirmed h else Failed (ExecutionReverted reason),
     S (k + n)).
Proof.
  induction n as [| n IH]; intros budget k Hlt Hrej Hinc.
  - destruct budget as [| b]; [lia |]. simpl.
    replace (k + 0)%nat with k in * by lia. rewrite Hinc.
    destruct ok; reflexivity.
  - destruct budget as [| b]; [lia |]. simpl.
    rewrite Hrej by lia.
    rewrite (IH b (S k)).
    + do 2 f_equal. lia.
    + lia.
    + intros j Hj. apply Hrej. lia.
    + replace (S k + n)%nat with (k + S n)%nat by lia. exact Hinc.
Qed.

(** C6: with a valid request, [execute] retries a submission rejected
    before inclusion up to the bound: when every one of the first
    [retries] submissions is rejected it fails with [SubmissionError]
    after exactly [retries] submissions, 3 by default; it never submits
    more often than the bound; and once a submission is included,
    confirmed or reverted, that submission is the last one. *)
Theorem execute_retries (r : ActionRequest) (net : Network) :
  validate r = true ->
  (forall retries,
      (forall j, (j < retries)%nat -> net j = RejectedBeforeInclusion) ->
      execute retries r net = (Failed SubmissionError, retries))
  /\ ((forall j, (j < DEFAULT_RETRIES)%nat -> net j = RejectedBeforeInclusion) ->
      execute DEFAULT_RETRIES r net = (Failed SubmissionError, 3%nat))
  /\ (forall retries, (snd (execute retries r net) <= retries)%nat)
  /\ (forall retries n h ok reason,
        (n < retries)%nat ->
        (forall j, (j < n)%nat -> net j = RejectedBeforeInclusion) ->
        net n = Included h ok reason ->
        execute retries r net
        = (if ok then Confirmed h else Failed (ExecutionReverted reason),
           S n)).
Proof.
  intros Hvalid. unfold execute. rewrite Hvalid.
  assert (Hall : forall retries,
             (forall j, (j < retries)%nat -> net j = RejectedBeforeInclusion) ->
             submit net retries 0 = (Failed SubmissionError, retries)).
  { intros retries Hrej. rewrite submit_all_rejected; [reflexivity |].
    intros j Hj. apply Hrej. lia. }
  split; [exact Hall |]. split; [apply Hall |]. split.
  - intros retries. pose proof (submit_attempts_bounded net retries 0). lia.
  - intros retries n h ok reason Hn Hrej Hinc.
    apply (submit_stops_at_inclusion net h ok reason n retries 0 Hn).
    + intros j Hj. apply Hrej. lia.
    + exact Hinc.
Qed.

(** Three injected failures: [SubmissionError] after exactly three
    submissions. *)
Lemma execute_retries_witness :
  validate sampleReward = true
  /\ execute DEFAULT_RETRIES sampleReward alwaysRejects
     = (Failed SubmissionError, 3%nat).
Proof.
  assert (Hv : validate sampleReward = true) by (vm_compute; reflexivity).
  split; [exact Hv |].
  apply (proj1 (proj2 (execute_retries sampleReward alwaysRejects Hv))).
  intros j _. reflexivity.
Defined.

End Retries.

(** ** The Policy Store: greedy selection *)

Section Greedy.
Import PolicyStore.

Lemma argmax_spec (v : nat -> Q) : forall n,
  (argmax v n <= n)%nat
  /\ (forall b, (b <= n)%nat -> (v b <= v (argmax v n))%Q)
  /\ (forall b, (b < argmax v n)%nat -> (v b < v (argmax v n))%Q).
Proof.
  induction n as [| n [IHle [IHmax IHtie]]]; simpl.
  - repeat split; try lia.
    intros b Hb. assert (b = O) by lia. subst. apply Qle_refl.
  - destruct (Qle_bool (v (S n)) (v (argmax v n))) eqn:Hcmp.
    + apply Qle_bool_iff in Hcmp. repeat split; [lia | | exact IHtie].
      intros b Hb. destruct (Nat.eq_dec b (S n)) as [-> | Hne].
      * exact Hcmp.
      * apply IHmax. lia.
    + assert (Hlt : (v (argmax v n) < v (S n))%Q).
      { apply Qnot_le_lt. intros Hle. apply Qle_bool_iff in Hle.
        congruence. }
      repeat split; [lia | |].
      * intros b Hb. destruct (Nat.eq_dec b (S n)) as [-> | Hne].
        -- apply Qle_refl.
        -- apply Qlt_le_weak. eapply Qle_lt_trans; [| exact Hlt].
           apply IHmax. lia.
      * intros b Hb. eapply Qle_lt_trans; [| exact Hlt].
        apply IHmax. lia.
Qed.

(** C5: for every observation in the unit cube, [selectAction] with
    [explore] false returns an id among 0, 1, 2 whose estimated value is
    the highest, the lowest such id on a tie, and the choice depends on
    nothing but the policy and the observation. *)
Theorem selectAction_greedy (p : PolicySession) (epsilon : Q) (d : Draw)
        (o : Observation) :
  valid o ->
  let a := selectAction p epsilon d o false in
  (a < N_ACTIONS)%nat
  /\ (forall b, (b < N_ACTIONS)%nat -> (value p o b <= value p o a)%Q)
  /\ (forall b, (b < a)%nat -> (value p o b < value p o a)%Q)
  /\ (forall epsilon' d', selectAction p epsilon' d' o false = a).
Proof.
  intros _ a. subst a. unfold selectAction. simpl andb. cbv iota.
  unfold greedy. change (N_ACTIONS - 1)%nat with 2%nat.
  change N_ACTIONS with 3%nat.
  destruct (argmax_spec (value p o) 2) as [Hle [Hmax Htie]].
  repeat split.
  - lia.
  - intros b Hb. apply Hmax. lia.
  - exact Htie.
Qed.

(** The end-to-end scenario: weights favouring action 1 return id 1,
    "Follow Profile". *)
Lemma selectAction_greedy_witness :
  let o := {| obs_followers := 2 # 10; obs_posts := 1 # 10;
              obs_engagement := 5 # 100 |} in
  valid o
  /\ (selectAction followFirst 0 {| coin := 0; pick := 0 |} o false
      < N_ACTIONS)%nat
  /\ selectAction followFirst 0 {| coin := 0; pick := 0 |} o false = 1%nat
  /\ actionName 1 = "Follow Profile".
Proof.
  intros o.
  assert (Hv : valid o).
  { unfold valid, unit_interval, Qle; simpl. lia. }
  split; [exact Hv |]. split.
  - exact (proj1 (selectAction_greedy followFirst 0
                    {| coin := 0; pick := 0 |} o Hv)).
  - split; reflexivity.
Defined.

End Greedy.

(** ** The Permission Encoder: function selectors *)

Section Selectors.
Import KeyManager.

Lemma hex_val_hex_char n :
  0 <= n < 16 -> Ethers.hex_val (Ethers.hex_char n) = Some n.
Proof.
  intros Hn. rewrite <- (Z2Nat.id n) by lia.
  assert (Hk : (Z.to_nat n < 16)%nat) by lia.
  revert Hk. generalize (Z.to_nat n) as k. intros k.
  do 16 (destruct k as [| k]; [reflexivity |]). lia.
Qed.

Lemma unhex_byte b rest :
  Ethers.is_byte b ->
  Ethers.unhex_body
    (String (Ethers.hex_char (b / 16)) (String (Ethers.hex_char (b mod 16)) rest))
  = match Ethers.unhex_body rest with
    | Some bs => Some (b :: bs)
    | None => None
    end.
Proof.
  intros Hb. unfold Ethers.is_byte in Hb. cbn [Ethers.unhex_body].
  rewrite !hex_val_hex_char.
  - destruct (Ethers.unhex_body rest); [| reflexivity].
    do 2 f_equal. pose proof (Z.div_mod b 16). lia.
  - apply Z.mod_pos_bound. lia.
  - split; [apply Z.div_pos; lia | apply Z.div_lt_upper_bound; lia].
Qed.

(** The hex string cut after ten characters is the hex string of the four
    leading bytes. *)
Lemma hexlify_slice (h : list Z) :
  (4 <= length h)%nat ->
  String.substring 0 10 (Ethers.hexlify h) = Ethers.hexlify (firstn 4 h).
Proof.
  intros Hlen.
  destruct h as [| a [| b [| c [| d t]]]]; simpl in Hlen; try lia.
  unfold Ethers.hexlify. cbn [firstn Ethers.hex_body].
  change (String.append "0x" ?s) with (String "0" (String "x" s)).
  cbn [String.substring].
  replace (String.substring 0 0 (Ethers.hex_body t)) with EmptyString
    by (destruct (Ethers.hex_body t); reflexivity).
  reflexivity.
Qed.

Lemma unhex_hex_body (bs : list Z) :
  Forall Ethers.is_byte bs -> Ethers.unhex_body (Ethers.hex_body bs) = Some bs.
Proof.
  induction 1 as [| b bs Hb _ IH]; [reflexivity |].
  cbn [Ethers.hex_body]. rewrite (unhex_byte _ _ Hb), IH. reflexivity.
Qed.

Lemma state_byte_range st i : Ethers.is_byte (Keccak.state_byte st i).
Proof.
  unfold Ethers.is_byte, Keccak.state_byte.
  change 255 with (Z.ones 8). rewrite Z.land_ones by lia.
  apply Z.mod_pos_bound. lia.
Qed.

Lemma keccak256_length msg : length (Keccak.keccak256 msg) = 32%nat.
Proof. unfold Keccak.keccak256. rewrite length_map, length_seq. reflexivity. Qed.

Lemma keccak256_bytes msg : Forall Ethers.is_byte (Keccak.keccak256 msg).
Proof.
  unfold Keccak.keccak256. apply Forall_map, Forall_forall.
  intros i _. apply state_byte_range.
Qed.

Lemma selectorOf_bytes4 signature :
  length (selectorOf signature) = 4%nat
  /\ Forall Ethers.is_byte (selectorOf signature).
Proof.
  unfold selectorOf. split.
  - rewrite length_take, keccak256_length. reflexivity.
  - apply Forall_take, keccak256_bytes.
Qed.

(** The hex string handed to the coder holds four bytes, which is less
    than a word. *)
Lemma functionSelector_throws signature :
  functionSelector ethersCoder signature = None.
Proof.
  unfold functionSelector, id.
  rewrite hexlify_slice by (rewrite keccak256_length; lia).
  cbn [decode_bytes4 ethersCoder]. unfold Ethers.decodeBytes4, Ethers.hexlify.
  change (String.append "0x" ?s) with (String "0" (String "x" s)).
  cbn [Ethers.getBytes].
  destruct (selectorOf_bytes4 signature) as [Hlen Hbytes].
  unfold selectorOf in Hlen, Hbytes.
  rewrite (unhex_hex_body _ Hbytes), Hlen. reflexivity.
Qed.

(** C2 at a failing input: the script does take each selector from a
    signature string, and [ethers.id] of the two signatures, cut after
    ten characters, spells the four leading bytes of their hashes,
    0x760d9bba and 0x511b6952. But it then asks the ABI coder to decode
    these four bytes as a [bytes4], which throws, whatever the
    signature: no selector is computed, no entry is built in any
    environment, and no run proposes or sets a permission. *)
Lemma selector_decoding_throws :
  String.substring 0 10 (id LSP7_TRANSFER) = "0x760d9bba"
  /\ String.substring 0 10 (id LSP8_TRANSFER) = "0x511b6952"
  /\ selectorOf LSP7_TRANSFER = [0x76; 0x0d; 0x9b; 0xba]
  /\ selectorOf LSP8_TRANSFER = [0x51; 0x1b; 0x69; 0x52]
  /\ (forall signature, functionSelector ethersCoder signature = None)
  /\ (forall env, permissionEntries ethersCoder env = None)
  /\ forall env w,
      Configure.proposed (Configure.configureKeyManager ethersCoder env w)
      = None
      /\ Configure.confirmed
           (Configure.configureKeyManager ethersCoder env w) = None.
Proof.
  assert (Hnone : forall env, permissionEntries ethersCoder env = None).
  { intros env. unfold permissionEntries, tokenTransferSelector.
    rewrite functionSelector_throws.
    destruct (negb (configured env)); reflexivity. }
  split; [vm_compute; reflexivity |]. split; [vm_compute; reflexivity |].
  split; [vm_compute; reflexivity |]. split; [vm_compute; reflexivity |].
  split; [exact functionSelector_throws |]. split; [exact Hnone |].
  intros env w. unfold Configure.configureKeyManager. rewrite Hnone.
  destruct (negb (configured env)); [split; reflexivity |].
  destruct (Configure.ownerCall w); split; reflexivity.
Qed.

End Selectors.

(** ** [execAction]: validation before the request *)

Section Execute.
Import App.

Variables (lib : Lib) (s1 s2 : Stamp) (resp : Outcome ExecResponse).

(** The state in which the [try] block runs. *)
Lemma execAction_run st rec addr action :
  recommendation st = Some rec ->
  address st = Some addr ->
  provider st = true ->
  JS.truthy (Some addr) = true ->
  AVAILABLE_ACTIONS !! action_id rec = Some action ->
  let st1 :=
    log s1 {| e_name := "Execute"; e_status := "pending";
              e_message := act_name action; e_txHash := None |}
        (setError None (setLoading (with_exec true) st)) in
  execAction lib s1 s2 resp st =
    match buildPayload lib addr rec action
            (target st) (content st) (amount st) with
    | Rejected msg => failedRun s2 msg None st1
    | Resolved payload =>
        match resp with
        | Rejected msg => failedRun s2 msg (Some payload) st1
        | Resolved res =>
            {| final :=
                 setLoading (with_exec false)
                   (setInputs "" "" "1"
                      (setRecommendation None
                         (log s2 {| e_name := "Execute";
                                    e_status := "success";
                                    e_message := act_name action ++ " done";
                                    e_txHash :=
                                      JS.or_else
                                        (details res ≫= transactionHash)
                                        (details res ≫= details_txHash) |}
                              st1)));
               sent := Some payload; uncaught := None;
               refresh_scheduled := true |}
        end
    end.
Proof.
  intros Hrec Haddr Hprov Htruthy Hact st1.
  unfold execAction. rewrite Hrec, Haddr, Hprov, Htruthy.
  cbn [negb orb]. cbn [action_id]. rewrite Hact. reflexivity.
Qed.

Lemma buildPayload_spec addr rec action st :
  match buildPayload lib addr rec action
          (target st) (content st) (amount st) with
  | Resolved p =>
      paramsAccepted lib action st
      /\ p = {| up_address := addr;
                p_action_id := action_id rec;
                target_address :=
                  if requires_param action "target"
                  then Some (target st) else None;
                post_content_cid :=
                  if requires_param action "content"
                  then Some (content st) else None;
                reward_amount_wei :=
                  if requires_param action "amount"
                  then Ethers.bigint_toString
                         <$> parseUnitsAt lib (amount st) "18"
                  else None |}
  | Rejected msg =>
      ~ paramsAccepted lib action st
      /\ (msg = "Invalid target" \/ msg = "Content required"
          \/ msg = parse_error lib (amount st))
  end.
Proof.
  unfold buildPayload, checkTarget, checkContent, checkAmount, and_then,
    paramsAccepted.
  destruct (requires_param action "target");
    destruct (isAddress lib (target st)) eqn:Ht;
    destruct (requires_param action "content");
    destruct (String.eqb_spec (content st) "") as [Hc | Hc];
    destruct (requires_param action "amount");
    destruct (parseUnitsAt lib (amount st) "18") as [w |] eqn:Hp;
    cbn [negb fmap option_fmap option_map up_address p_action_id
         target_address post_content_cid reward_amount_wei];
    try (split; [| reflexivity]; repeat split; intros; eauto; congruence);
    try (split; [| solve [auto]]; intros [H1 [H2 H3]];
         first [ specialize (H1 eq_refl); congruence
               | specialize (H2 eq_refl); congruence
               | specialize (H3 eq_refl); destruct H3 as [? ?]; congruence ]).
Qed.

End Execute.

Section Validation.
Import App.

Variables (isAddr : string -> bool) (err : string -> string).
Variables (s1 s2 : Stamp) (resp : Outcome ExecResponse).

(** The unit ["18"] is no unit name: [parseUnits] throws on it whatever
    the amount. *)
Lemma amount_rejected (amount : string) :
  parseUnitsAt (ethers6 isAddr err) amount "18" = None.
Proof. reflexivity. Qed.

(** What the three checks come to. *)
Lemma paramsAccepted_ethers6 (action : ActionSpec) (st : AppState) :
  paramsAccepted (ethers6 isAddr err) action st
  <-> (requires_param action "target" = true -> isAddr (target st) = true)
      /\ (requires_param action "content" = true -> content st <> "")
      /\ requires_param action "amount" = false.
Proof.
  unfold paramsAccepted. cbn [isAddress ethers6]. split.
  - intros [Ht [Hc Ha]]. split; [exact Ht |]. split; [exact Hc |].
    destruct (requires_param action "amount"); [| reflexivity].
    destruct (Ha eq_refl) as [w Hw]. rewrite amount_rejected in Hw.
    discriminate Hw.
  - intros [Ht [Hc Ha]]. split; [exact Ht |]. split; [exact Hc |].
    rewrite Ha. discriminate.
Qed.

(** C1: past the entry guard, with an action of the table, every required
    parameter is checked before the request is posted. A request that is
    posted has a target that passed [isAddress] and a content that is not
    empty, wherever the action requires them, and it carries these
    values; it never carries an amount, because the amount is passed to
    [parseUnits] with the unit string ["18"], on which the library throws
    for every amount, positive or not. When a check fails nothing is
    posted, the error of the check is shown and a failed entry is
    logged; when all pass the request is posted. *)
Theorem execAction_validates (st : AppState) (rec : ActionResponse)
        (addr : string) (action : ActionSpec) :
  recommendation st = Some rec ->
  address st = Some addr ->
  provider st = true ->
  JS.truthy (Some addr) = true ->
  AVAILABLE_ACTIONS !! action_id rec = Some action ->
  let run := execAction (ethers6 isAddr err) s1 s2 resp st in
  let valid :=
    (requires_param action "target" = true -> isAddr (target st) = true)
    /\ (requires_param action "content" = true -> content st <> "")
    /\ requires_param action "amount" = false in
  (forall p,
      sent run = Some p ->
      valid
      /\ target_address p
         = (if requires_param action "target" then Some (target st) else None)
      /\ post_content_cid p
         = (if requires_param action "content"
            then Some (content st) else None)
      /\ reward_amount_wei p = None)
  /\ (valid -> is_Some (sent run))
  /\ (~ valid ->
      sent run = None
      /\ uncaught run = None
      /\ exists msg,
          (msg = "Invalid target" \/ msg = "Content required"
           \/ msg = err (amount st))
          /\ error (final run) = Some msg
          /\ head (logs (final run))
             = Some (stamped s2 {| e_name := "Execute";
                                   e_status := "failed";
                                   e_message := msg;
                                   e_txHash := None |})).
Proof.
  intros Hrec Haddr Hprov Htruthy Hact run valid. subst run valid.
  rewrite (execAction_run (ethers6 isAddr err) s1 s2 resp st rec addr action
             Hrec Haddr Hprov Htruthy Hact).
  cbv zeta.
  pose proof (buildPayload_spec (ethers6 isAddr err) addr rec action st)
    as Hspec.
  destruct (buildPayload (ethers6 isAddr err) addr rec action
              (target st) (content st) (amount st)) as [p0 | msg].
  - destruct Hspec as [Hok Hp0]. apply paramsAccepted_ethers6 in Hok.
    split; [| split; [| intros Hno; contradiction]].
    + intros p Hp.
      assert (Hpp : p = p0) by (destruct resp; simpl in Hp; congruence).
      subst p. rewrite Hp0.
      cbn [target_address post_content_cid reward_amount_wei].
      split; [exact Hok |]. split; [reflexivity |]. split; [reflexivity |].
      destruct Hok as [_ [_ ->]]. reflexivity.
    + intros _. destruct resp; eexists; reflexivity.
  - destruct Hspec as [Hno Hmsg]. cbn [parse_error ethers6] in Hmsg.
    rewrite paramsAccepted_ethers6 in Hno.
    split; [intros p Hp; discriminate Hp |].
    split; [intros Hok; contradiction |].
    intros _. split; [reflexivity |]. split; [reflexivity |].
    exists msg. split; [exact Hmsg |]. split; reflexivity.
Qed.

End Validation.

Section ExecuteExamples.
Import App.

(** A follow with a well-formed target is posted, with the target and
    nothing else. *)
Lemma execAction_validates_witness :
  AVAILABLE_ACTIONS !! 1
  = Some {| act_name := "Follow Profile"; requires := Some ["target"] |}
  /\ sent (execAction sampleLib stampA stampB confirmedResponse followReady)
     = Some {| up_address := "0x00000000000000000000000000000000000000aa";
               p_action_id := 1;
               target_address :=
                 Some "0x0000000000000000000000000000000000000abc";
               post_content_cid := None;
               reward_amount_wei := None |}.
Proof.
  split; [reflexivity |].
  destruct (execAction_validates hex40 (fun _ => "invalid unit")
              stampA stampB confirmedResponse followReady _ _ _
              eq_refl eq_refl eq_refl eq_refl eq_refl)
    as [_ [Hposted _]].
  assert (Hvalid : (requires_param
                      {| act_name := "Follow Profile";
                         requires := Some ["target"] |} "target" = true ->
                    hex40 (target followReady) = true)
                   /\ (requires_param
                         {| act_name := "Follow Profile";
                            requires := Some ["target"] |} "content" = true ->
                       content followReady <> "")
                   /\ requires_param
                        {| act_name := "Follow Profile";
                           requires := Some ["target"] |} "amount" = false).
  { split; [intros _; reflexivity |].
    split; [intros Hc; discriminate Hc | reflexivity]. }
  destruct (Hposted Hvalid) as [p Hp]. unfold sampleLib. rewrite Hp. f_equal.
  vm_compute in Hp. injection Hp as <-. reflexivity.
Defined.

End ExecuteExamples.

(** ** The reward amount on the wire *)

Section RewardAmount.
Import App.

(** C10 at a failing input: with a well-formed target and the amount "1"
    entered, no request is posted at all. The unit is passed as the
    string ["18"], which is no unit name, so [parseUnits] throws before
    the request is built; the error is shown and a failed entry logged.
    The name [ether] or the number 18 would have given 18 decimals, and
    with them "1" reads as 1000000000000000000. *)
Lemma reward_amount_never_sent :
  Ethers.unitDecimals "18" = None
  /\ Ethers.unitDecimals "ether" = Some 18%nat
  /\ Ethers.bigint_toString <$> Ethers.parseUnits "1" 18
     = Some "1000000000000000000"
  /\ (let run := execAction sampleLib stampA stampB confirmedResponse
                   (rewardReady "1") in
      sent run = None
      /\ refresh_scheduled run = false
      /\ error (final run) = Some (parse_error sampleLib "1")
      /\ status <$> head (logs (final run)) = Some "failed")
  /\ forall amount,
      sent (execAction sampleLib stampA stampB confirmedResponse
              (rewardReady amount)) = None.
Proof.
  split; [reflexivity |]. split; [reflexivity |].
  split; [vm_compute; reflexivity |].
  split; [vm_compute; repeat split; reflexivity |].
  intros amount. unfold execAction. cbn [recommendation address provider
    rewardReady connected]. reflexivity.
Qed.

End RewardAmount.

(** ** One terminal log entry per attempt *)

Section Attempts.
Import App.

Lemma addLog_twice s1 e1 s2 e2 l :
  addLog s2 e2 (addLog s1 e1 l)
  = JS.slice0 LOG_CAP (stamped s2 e2 :: stamped s1 e1 :: l).
Proof.
  unfold addLog, JS.slice0, LOG_CAP.
  change 50%nat with (S (S 48)).
  rewrite !firstn_cons, take_take. reflexivity.
Qed.

Lemma logs_setLoading f st : logs (setLoading f st) = logs st.
Proof. reflexivity. Qed.
Lemma logs_setMetrics m st : logs (setMetrics m st) = logs st.
Proof. reflexivity. Qed.
Lemma logs_setRecommendation r st : logs (setRecommendation r st) = logs st.
Proof. reflexivity. Qed.
Lemma logs_setError e st : logs (setError e st) = logs st.
Proof. reflexivity. Qed.
Lemma logs_setInputs t c a st : logs (setInputs t c a st) = logs st.
Proof. reflexivity. Qed.
Lemma logs_log s e st : logs (log s e st) = addLog s e (logs st).
Proof. reflexivity. Qed.

Create Rewrite HintDb app_logs.
#[local] Hint Rewrite logs_setLoading logs_setMetrics logs_setRecommendation
     logs_setError logs_setInputs logs_log : app_logs.

Lemma two_entries s1 e1 s2 e2 l :
  e_status e1 = "pending" ->
  e_status e2 = "success" \/ e_status e2 = "failed" ->
  exists pending_entry terminal_entry,
    addLog s2 e2 (addLog s1 e1 l)
    = JS.slice0 LOG_CAP (terminal_entry :: pending_entry :: l)
    /\ status pending_entry = "pending"
    /\ terminal terminal_entry
    /\ id pending_entry = uuid s1
    /\ id terminal_entry = uuid s2.
Proof.
  intros Hp Ht. exists (stamped s1 e1), (stamped s2 e2).
  split; [apply addLog_twice |].
  split; [exact Hp |]. split; [exact Ht |]. split; reflexivity.
Qed.

Lemma started_execute lib resp st :
  started (ExecuteAttempt lib resp) st = true ->
  exists rec addr action,
    recommendation st = Some rec /\ address st = Some addr
    /\ provider st = true /\ JS.truthy (Some addr) = true
    /\ AVAILABLE_ACTIONS !! action_id rec = Some action.
Proof.
  unfold started.
  destruct (recommendation st) as [rec |]; [| discriminate].
  intros [[Hprov Htruthy]%andb_true_iff Hact]%andb_true_iff.
  apply bool_decide_eq_true in Hact. destruct Hact as [action Hact].
  destruct (address st) as [addr |]; [| discriminate].
  exists rec, addr, action. auto.
Qed.

(** C8, as the code has it: an attempt that passes the entry guard of its
    handler, an execution being for an action of the table, adds exactly
    two entries to the log, a pending one and then one terminal entry,
    success or failed, with its message; the older entries follow, cut at
    the cap. *)
Theorem attempt_logs_terminal (a : Attempt) (s1 s2 : Stamp) (st : AppState) :
  started a st = true ->
  exists pending_entry terminal_entry,
    logs (perform a s1 s2 st)
    = JS.slice0 LOG_CAP (terminal_entry :: pending_entry :: logs st)
    /\ status pending_entry = "pending"
    /\ terminal terminal_entry
    /\ id pending_entry = uuid s1
    /\ id terminal_entry = uuid s2.
Proof.
  intros Hstarted. destruct a as [chain r1 r2 | resp | lib resp].
  - (* fetchMetrics *)
    simpl in Hstarted. unfold perform, fetchMetrics.
    rewrite Hstarted. cbn [negb].
    destruct (loadMetrics chain r1 r2) as [m | msg];
      autorewrite with app_logs;
      apply two_entries; cbn [e_status]; auto.
  - (* getRecom *)
    simpl in Hstarted. apply andb_true_iff in Hstarted.
    destruct Hstarted as [Hm Htruthy].
    apply bool_decide_eq_true in Hm. destruct Hm as [m Hm].
    unfold perform, getRecom. rewrite Hm.
    destruct (address st) as [addr |] eqn:Haddr; [| discriminate].
    rewrite Htruthy. cbn [negb fst].
    destruct resp as [data | msg];
      autorewrite with app_logs;
      apply two_entries; cbn [e_status]; auto.
  - (* execAction *)
    destruct (started_execute lib resp st Hstarted)
      as [rec [addr [action [Hrec [Haddr [Hprov [Htruthy Hact]]]]]]].
    unfold perform.
    rewrite (execAction_run lib s1 s2 resp st rec addr action
               Hrec Haddr Hprov Htruthy Hact).
    cbv zeta.
    destruct (buildPayload lib addr rec action
                (target st) (content st) (amount st)) as [p | msg];
      [destruct resp as [res | msg] |];
      unfold failedRun; cbn [final];
      autorewrite with app_logs;
      apply two_entries; cbn [e_status]; auto.
Qed.

Lemma attempt_logs_terminal_witness :
  started (FetchAttempt (Resolved sampleData) (1 # 2) (1 # 2)) connected
  = true
  /\ exists pending_entry terminal_entry,
      logs (perform (FetchAttempt (Resolved sampleData) (1 # 2) (1 # 2))
              stampA stampB connected)
      = JS.slice0 LOG_CAP (terminal_entry :: pending_entry :: logs connected)
      /\ status pending_entry = "pending"
      /\ terminal terminal_entry
      /\ id pending_entry = uuid stampA
      /\ id terminal_entry = uuid stampB.
Proof.
  split; [reflexivity |].
  exact (attempt_logs_terminal
           (FetchAttempt (Resolved sampleData) (1 # 2) (1 # 2))
           stampA stampB connected eq_refl).
Defined.

(** C8 as stated fails: asking for a recommendation before the metrics
    are loaded ends with an error on screen and nothing in the log. *)
Lemma recommend_attempt_unlogged :
  let st := perform (RecommendAttempt
                       (Resolved {| action_id := 1;
                                    action_name := "Follow Profile" |}))
              stampA stampB connected in
  error st = Some "Connect and load metrics first"
  /\ ~ exists entry, In entry (logs st) /\ terminal entry.
Proof.
  split; [reflexivity |].
  intros [entry [Hin _]]. exact Hin.
Qed.

End Attempts.

(** ** Where the metrics come from *)

Section Metrics.
Import App.

(** C3 at a failing input: with the same data read from the chain, two
    refreshes report 0 and 250 followers and engagement rates of 0 and
    0.05, which are the random draws; only the post count, 3, comes from
    the chain. The recommendation request then sends the stored
    metrics. *)
Lemma fetchMetrics_followers_drawn :
  let refresh r :=
    fetchMetrics stampA stampB (Resolved sampleData) r r connected in
  (followers <$> metrics (refresh 0%Q)) = Some 0
  /\ (followers <$> metrics (refresh (1 # 2)%Q)) = Some 250
  /\ (engagementRate <$> metrics (refresh 0%Q)) = Some (0 # 1000)%Q
  /\ (engagementRate <$> metrics (refresh (1 # 2)%Q)) = Some (50 # 1000)%Q
  /\ (postsCount <$> metrics (refresh 0%Q)) = Some 3
  /\ (postsCount <$> metrics (refresh (1 # 2)%Q)) = Some 3
  /\ (rq_followers
        <$> snd (getRecom stampA stampB
                   (Rejected "Network Error") (refresh (1 # 2)%Q)))
     = Some 250.
Proof. vm_compute. repeat split; reflexivity. Qed.

End Metrics.

(** ** [deploy.js]: rewriting the [.env] file *)

Section ReplaceKey.
Import Deploy.

Lemma starts_with_spec key text :
  starts_with key text = true <-> key `prefix_of` text.
Proof.
  revert text. induction key as [| k key IH]; intros text.
  - split; [intros _; apply prefix_nil | reflexivity].
  - destruct text as [| c text]; cbn [starts_with].
    + split; [discriminate | intros H; destruct (prefix_nil_not _ _ H)].
    + rewrite andb_true_iff, N.eqb_eq, IH. split.
      * intros [-> H]. apply prefix_cons, H.
      * intros H. split.
        -- apply (prefix_cons_inv_1 _ _ _ _ H).
        -- apply (prefix_cons_inv_2 _ _ _ _ H).
Qed.

(** The key replaced, [body2] and the marker, and the value put after it. *)
Variables (body2 : list N) (marker : N) (value2 : list N).
Let key2 := (body2 ++ [marker])%list.
Let go := replace_from key2 (key2 ++ value2)%list.

Hypothesis key2_plain : plain key2.

Lemma key2_head c text :
  is_line_terminator c = true -> starts_with key2 (c :: text) = false.
Proof.
  intros Hc. destruct (starts_with key2 (c :: text)) eqn:Hs; [| reflexivity].
  apply starts_with_spec in Hs. exfalso.
  unfold key2, plain in *. destruct body2 as [| b body].
  - apply prefix_cons_inv_1 in Hs. subst c.
    inversion key2_plain; congruence.
  - apply prefix_cons_inv_1 in Hs. subst c.
    inversion key2_plain; congruence.
Qed.

(** In a match, the rest of the line is dropped. *)
Lemma go_skip x tail :
  plain x -> ends_line tail -> go true (x ++ tail) = go false tail.
Proof.
  intros Hx Htail. induction Hx as [| c x Hc _ IH].
  - destruct tail as [| c tail]; [reflexivity |].
    simpl in Htail. cbn [app]. unfold go. cbn [replace_from].
    rewrite Htail. reflexivity.
  - cbn [app]. unfold go in *. cbn [replace_from]. rewrite Hc. exact IH.
Qed.

Lemma go_skip_ends_line text : ends_line (go true text).
Proof.
  induction text as [| c text IH]; [exact I |].
  unfold go in *. cbn [replace_from].
  destruct (is_line_terminator c) eqn:Hc; cbn [andb negb]; [| exact IH].
  fold key2. rewrite (key2_head c text Hc). exact Hc.
Qed.

Lemma go_copy_ends_line text : ends_line text -> ends_line (go false text).
Proof.
  destruct text as [| c text]; [intros _; exact I |].
  intros Hc. simpl in Hc. unfold go. cbn [replace_from andb].
  fold key2. rewrite (key2_head c text Hc). exact Hc.
Qed.

Hypothesis marker_fresh2 : marker ∉ body2.
Hypothesis value2_marker : marker ∉ value2.
Hypothesis value2_plain : plain value2.

(** A text in which the key is already followed by the value wherever it
    occurs is left as it is. *)
Lemma go_assigned : forall n text,
  (length text <= n)%nat -> assigns key2 value2 text -> go false text = text.
Proof.
  induction n as [| n IH]; intros text Hlen Hassigned.
  - destruct text; [reflexivity | simpl in Hlen; lia].
  - destruct text as [| c text]; [reflexivity |].
    unfold go. cbn [replace_from andb]. fold key2. fold go.
    destruct (starts_with key2 (c :: text)) eqn:Hs.
    + apply starts_with_spec in Hs. destruct Hs as [post Hpost].
      destruct (Hassigned [] post Hpost) as [tail [-> Htail]].
      assert (Hkv : exists x, (key2 ++ value2 = c :: x)%list /\ plain x
                              /\ text = (x ++ tail)%list).
      { unfold key2 in *. destruct body2 as [| b body]; cbn [app] in Hpost.
        - injection Hpost as -> ->. eexists. split; [reflexivity |].
          split; [exact value2_plain | reflexivity].
        - injection Hpost as -> ->. eexists. split; [reflexivity |].
          split; [| rewrite <- !app_assoc; reflexivity].
          apply Forall_app. split; [| exact value2_plain].
          inversion key2_plain; assumption. }
      destruct Hkv as [x [Hx [Hplain ->]]].
      rewrite (go_skip x tail Hplain Htail).
      rewrite (IH tail).
      * rewrite Hx. reflexivity.
      * simpl in Hlen. rewrite length_app in Hlen. lia.
      * intros pre post' Heq. apply (Hassigned (c :: x ++ pre) post').
        rewrite Heq. cbn [app]. rewrite <- app_assoc. reflexivity.
    + f_equal. apply IH; [simpl in Hlen; lia |].
      intros pre post Heq. apply (Hassigned (c :: pre) post).
      rewrite Heq. reflexivity.
Qed.

Lemma go_absent text : ~ occurs key2 text -> go false text = text.
Proof.
  intros Hno. apply (go_assigned (length text)); [lia |].
  intros pre post Heq. destruct Hno. exists pre, post. exact Heq.
Qed.

(** The key looked at after the replacement, [body1] and the same marker,
    and the value expected after it. *)
Variables (body1 value1 : list N).
Let key1 := (body1 ++ [marker])%list.

Hypothesis body1_nonempty : body1 <> [].
Hypothesis body1_plain : plain body1.
Hypothesis value1_marker : marker ∉ value1.
Hypothesis comparable :
  body1 `suffix_of` body2 \/ body2 `suffix_of` body1 -> value1 = value2.

Lemma marker_plain : is_line_terminator marker = false.
Proof.
  unfold plain, key2 in key2_plain. rewrite Forall_app in key2_plain.
  destruct key2_plain as [_ Hm]. inversion Hm; assumption.
Qed.

Lemma settled_march u : forall before text,
  marker ∉ u ->
  settled body1 marker value1 (before ++ u) text ->
  settled body1 marker value1 before (u ++ text).
Proof.
  induction u as [| c u IH]; intros before text Hu Hs.
  - rewrite app_nil_r in Hs. exact Hs.
  - apply not_elem_of_cons in Hu. destruct Hu as [Hc Hu].
    cbn [app settled]. split; [intros ->; congruence |].
    apply IH; [exact Hu |]. rewrite <- app_assoc. exact Hs.
Qed.

Lemma settled_drop u : forall before text,
  settled body1 marker value1 before (u ++ text) ->
  settled body1 marker value1 (before ++ u) text.
Proof.
  induction u as [| c u IH]; intros before text Hs.
  - rewrite app_nil_r. exact Hs.
  - cbn [app settled] in Hs. destruct Hs as [_ Hs].
    apply IH in Hs. rewrite <- app_assoc in Hs. exact Hs.
Qed.

Lemma settled_assigns text :
  settled body1 marker value1 [] text -> assigns key1 value1 text.
Proof.
  intros Hs pre post ->. unfold key1 in Hs.
  rewrite <- app_assoc, app_assoc in Hs.
  apply settled_drop in Hs. cbn [app settled] in Hs.
  destruct Hs as [Hs _]. apply Hs; [reflexivity |].
  apply suffix_app_r. reflexivity.
Qed.

(** The value of the key looked at, standing before the end of a line, is
    copied as it is. *)
Lemma go_copy_value tail : forall v,
  marker ∉ v -> ends_line tail -> go false (v ++ tail) = (v ++ go false tail)%list.
Proof.
  induction v as [| c v IH]; intros Hv Htail; [reflexivity |].
  cbn [app]. unfold go. cbn [replace_from andb]. fold key2. fold go.
  destruct (starts_with key2 (c :: v ++ tail)) eqn:Hs.
  - exfalso. apply starts_with_spec in Hs.
    assert (Hm : marker ∈ key2).
    { unfold key2. apply elem_of_app. right. apply elem_of_cons; left; reflexivity. }
    destruct (prefix_weak_total key2 (c :: v) ((c :: v) ++ tail) Hs)
      as [[k Hk] | [k Hk]].
    + apply prefix_app_r. reflexivity.
    + apply Hv. rewrite Hk. apply elem_of_app. left. exact Hm.
    + destruct Hs as [post Hpost]. rewrite Hk in Hpost.
      rewrite <- app_assoc in Hpost.
      change (c :: v ++ tail) with ((c :: v) ++ tail)%list in Hpost.
      apply app_inv_head in Hpost.
      destruct k as [| k0 k].
      * rewrite app_nil_r in Hk. apply Hv. rewrite <- Hk. exact Hm.
      * subst tail. simpl in Htail.
        assert (Hk0 : k0 ∈ key2).
        { rewrite Hk. apply elem_of_app. right. apply elem_of_cons; left; reflexivity. }
        pose proof key2_plain as Hplain.
        unfold plain in Hplain. rewrite Forall_forall in Hplain.
        specialize (Hplain k0 Hk0). congruence.
  - f_equal. apply IH; [| exact Htail].
    apply not_elem_of_cons in Hv. apply Hv.
Qed.

Lemma replace_settles : forall text,
  untouched_ok key2 key1 value1 text ->
  (forall rest w,
      (rest <> [] -> ends_line (w ++ text)) ->
      (forall u, u <> [] -> u `suffix_of` w ->
                 forall post, (u ++ text = key1 ++ post)%list ->
                              follows value1 post) ->
      settled body1 marker value1 (rest ++ w) (go false text))
  /\ (forall before, before <> [] ->
                     settled body1 marker value1 before (go true text)).
Proof.
  induction text as [| c t IH]; intros Hin.
  - split; intros; exact I.
  - assert (Hin' : untouched_ok key2 key1 value1 t).
    { intros rest Hrest. apply Hin, suffix_cons_r, Hrest. }
    destruct (IH Hin') as [IHcopy IHskip].
    assert (Hcopy : forall rest w,
               (rest <> [] -> ends_line (w ++ c :: t)) ->
               (forall u, u <> [] -> u `suffix_of` w ->
                          forall post, (u ++ c :: t = key1 ++ post)%list ->
                                       follows value1 post) ->
               settled body1 marker value1 (rest ++ w) (go false (c :: t))).
    { intros rest w Hbar HP.
      unfold go. cbn [replace_from andb]. fold key2. fold go.
      destruct (starts_with key2 (c :: t)) eqn:Hs.
      - unfold key2. rewrite <- !app_assoc. cbn [app].
        apply settled_march; [exact marker_fresh2 |].
        cbn [settled]. split.
        + intros _ Hsuf.
          rewrite <- comparable.
          * exists (go true t). split; [reflexivity |].
            apply go_skip_ends_line.
          * apply (suffix_weak_total _ _ ((rest ++ w) ++ body2));
              [exact Hsuf | apply suffix_app_r; reflexivity].
        + apply settled_march; [exact value2_marker |].
          apply IHskip. intros Hnil.
          apply app_eq_nil in Hnil. destruct Hnil as [Hnil _].
          apply app_eq_nil in Hnil. destruct Hnil as [_ Hnil].
          discriminate.
      - cbn [settled]. split.
        + intros -> Hsuf.
          assert (Hw : body1 `suffix_of` w).
          { destruct rest as [| r rest]; [exact Hsuf |].
            destruct (suffix_weak_total body1 w ((r :: rest) ++ w) Hsuf)
              as [Hb | Hb]; [apply suffix_app_r; reflexivity | exact Hb |].
            exfalso. specialize (Hbar ltac:(discriminate)).
            destruct w as [| c0 w]; simpl in Hbar.
            - pose proof marker_plain. congruence.
            - assert (Hc0 : c0 ∈ body1).
              { destruct Hb as [k ->]. apply elem_of_app. right.
                apply elem_of_cons; left; reflexivity. }
              pose proof body1_plain as Hplain.
              unfold plain in Hplain. rewrite Forall_forall in Hplain.
              specialize (Hplain c0 Hc0). congruence. }
          destruct (HP body1 body1_nonempty Hw t) as [tail [-> Htail]].
          { unfold key1. rewrite <- app_assoc. reflexivity. }
          rewrite (go_copy_value tail value1 value1_marker Htail).
          exists (go false tail). split; [reflexivity |].
          apply go_copy_ends_line, Htail.
        + rewrite <- app_assoc. apply IHcopy.
          * intros Hrest. rewrite <- app_assoc. apply Hbar, Hrest.
          * intros u Hu Hsuf post Heq.
            destruct (exists_last Hu) as [u' [x ->]].
            pose proof (suffix_snoc_inv_1 _ _ _ _ Hsuf) as ->.
            apply suffix_snoc_inv_2 in Hsuf.
            rewrite <- app_assoc in Heq. cbn [app] in Heq.
            destruct u' as [| u0 u'].
            -- apply (Hin (c :: t)); [reflexivity | exact Hs | exact Heq].
            -- apply (HP (u0 :: u')); [discriminate | exact Hsuf | exact Heq]. }
    split; [exact Hcopy |].
    intros before Hne. destruct (is_line_terminator c) eqn:Hc.
    + replace (go true (c :: t)) with (go false (c :: t))
        by (unfold go; cbn [replace_from]; rewrite Hc; reflexivity).
      rewrite <- (app_nil_r before). apply Hcopy.
      * intros _. exact Hc.
      * intros u Hu Hsuf. apply suffix_nil_inv in Hsuf. contradiction.
    + unfold go. cbn [replace_from]. rewrite Hc. cbn [andb negb].
      apply IHskip, Hne.
Qed.

(** After the replacement, the key looked at is followed by its value and
    the end of the line wherever it occurs. *)
Lemma replace_assigns text :
  untouched_ok key2 key1 value1 text -> assigns key1 value1 (go false text).
Proof.
  intros Hin. apply settled_assigns.
  destruct (replace_settles text Hin) as [Hcopy _].
  apply (Hcopy [] []).
  - intros Hnil. contradiction.
  - intros u Hu Hsuf. apply suffix_nil_inv in Hsuf. contradiction.
Qed.

End ReplaceKey.

Section EnvFile.
Import Deploy.

Lemma is_hex_plain c :
  is_hex c = true -> is_line_terminator c = false /\ c <> EQUALS.
Proof.
  unfold is_hex, is_line_terminator, EQUALS.
  rewrite !orb_true_iff, !andb_true_iff, !N.leb_le.
  intros Hc. split; [| lia].
  rewrite !orb_false_iff, !N.eqb_neq. lia.
Qed.

Lemma addressText_plain a :
  addressText a = true -> plain a /\ EQUALS ∉ a.
Proof.
  destruct a as [| c0 [| c1 body]]; try discriminate.
  cbn [addressText].
  rewrite !andb_true_iff, !N.eqb_eq.
  intros [[[-> ->] _] Hbody].
  rewrite forallb_forall in Hbody.
  assert (Hall : Forall (fun c => is_line_terminator c = false
                                  /\ c <> EQUALS) body).
  { apply Forall_forall. intros c Hc. apply is_hex_plain, Hbody.
    apply list_elem_of_In, Hc. }
  split.
  - repeat (constructor; [reflexivity |]).
    eapply Forall_impl; [exact Hall |]. intros c [Hc _]. exact Hc.
  - rewrite !not_elem_of_cons. split; [discriminate |].
    split; [discriminate |].
    intros Hin. rewrite Forall_forall in Hall.
    destruct (Hall _ Hin) as [_ Hne]. congruence.
Qed.

Lemma key_ok_facts body :
  key_ok body = true ->
  body <> [] /\ plain body /\ plain (body ++ [EQUALS]) /\ EQUALS ∉ body.
Proof.
  unfold key_ok. rewrite andb_true_iff, forallb_forall.
  intros [Hne Hall].
  assert (Hchars : Forall (fun c => is_line_terminator c = false
                                    /\ c <> EQUALS) body).
  { apply Forall_forall. intros c Hc.
    apply list_elem_of_In, Hall in Hc.
    apply andb_true_iff in Hc. destruct Hc as [H1 H2].
    apply negb_true_iff in H1. apply negb_true_iff, N.eqb_neq in H2.
    auto. }
  assert (Hplain : plain body).
  { eapply Forall_impl; [exact Hchars |]. intros c [Hc _]. exact Hc. }
  split; [destruct body; [discriminate | discriminate] |].
  split; [exact Hplain |]. split.
  - apply Forall_app. split; [exact Hplain |].
    constructor; [reflexivity | constructor].
  - intros Hin. rewrite Forall_forall in Hchars.
    destruct (Hchars _ Hin) as [_ Hc]. congruence.
Qed.

(** One replacement settles its own key. *)
Lemma replace_own body value text :
  key_ok body = true -> EQUALS ∉ value ->
  assigns (body ++ [EQUALS]) value
    (replace_from (body ++ [EQUALS]) ((body ++ [EQUALS]) ++ value) false text).
Proof.
  intros Hkey Hvalue.
  destruct (key_ok_facts body Hkey) as [Hne [Hplain [Hkplain Hfresh]]].
  apply replace_assigns; auto.
  intros rest _ Hs post ->.
  assert (Hp : starts_with (body ++ [EQUALS]) ((body ++ [EQUALS]) ++ post)
               = true).
  { apply starts_with_spec. apply prefix_app_r. reflexivity. }
  congruence.
Qed.

(** A replacement keeps another key settled when neither key body ends
    with the other. *)
Lemma replace_other body1 value1 body2 value2 text :
  key_ok body1 = true -> key_ok body2 = true ->
  EQUALS ∉ value1 -> EQUALS ∉ value2 ->
  ~ body1 `suffix_of` body2 -> ~ body2 `suffix_of` body1 ->
  assigns (body1 ++ [EQUALS]) value1 text ->
  assigns (body1 ++ [EQUALS]) value1
    (replace_from (body2 ++ [EQUALS]) ((body2 ++ [EQUALS]) ++ value2)
       false text).
Proof.
  intros Hkey1 Hkey2 Hv1 Hv2 Hn1 Hn2 Hassigned.
  destruct (key_ok_facts body1 Hkey1) as [Hne1 [Hplain1 _]].
  destruct (key_ok_facts body2 Hkey2) as [_ [_ [Hkplain2 Hfresh2]]].
  apply replace_assigns; auto.
  - intros [H | H]; contradiction.
  - intros rest [k ->] _ post ->. apply (Hassigned k post). reflexivity.
Qed.

(** A key settled is settled under any prefix put before it. *)
Lemma assigns_prefixed lead key value text :
  assigns key value text -> assigns (lead ++ key) value text.
Proof.
  intros Hassigned pre post ->. apply (Hassigned (pre ++ lead)%list post).
  rewrite <- !app_assoc. reflexivity.
Qed.

(** A replacement changes nothing in a text in which its key is settled. *)
Lemma replace_settled body value text :
  key_ok body = true -> plain value ->
  assigns (body ++ [EQUALS]) value text ->
  replace_from (body ++ [EQUALS]) ((body ++ [EQUALS]) ++ value) false text
  = text.
Proof.
  intros Hkey Hvalue Hassigned.
  destruct (key_ok_facts body Hkey) as [_ [_ [Hkplain Hfresh]]].
  apply (go_assigned body EQUALS value Hkplain Hfresh Hvalue (length text));
    [lia | exact Hassigned].
Qed.

Lemma assignment_body name :
  assignment name = (code_units name ++ [EQUALS])%list.
Proof.
  unfold assignment, code_units.
  induction name as [| c name IH]; [reflexivity |].
  change (String c name ++ "=")%string with (String c (name ++ "=")).
  cbn [list_ascii_of_string map app]. rewrite IH. reflexivity.
Qed.

Lemma replaceAssignment_body name value text :
  replaceAssignment name value text
  = replace_from (code_units name ++ [EQUALS])
      ((code_units name ++ [EQUALS]) ++ value) false text.
Proof. unfold replaceAssignment. rewrite assignment_body. reflexivity. Qed.

Lemma token_badge_apart :
  ~ code_units "THANK_YOU_TOKEN_ADDRESS" `suffix_of` code_units "BADGE_NFT_ADDRESS"
  /\ ~ code_units "BADGE_NFT_ADDRESS" `suffix_of` code_units "THANK_YOU_TOKEN_ADDRESS".
Proof.
  split; intros H; apply (bool_decide_pack _) in H; vm_compute in H; exact H.
Qed.

(** After the first two replacements both keys are settled. *)
Lemma updateEnv_settles token badge content :
  addressText token = true -> addressText badge = true ->
  assigns (assignment "THANK_YOU_TOKEN_ADDRESS") token
    (updateEnv token badge content)
  /\ assigns (assignment "BADGE_NFT_ADDRESS") badge
       (updateEnv token badge content).
Proof.
  intros Ht Hb.
  destruct (addressText_plain _ Ht) as [_ Hteq].
  destruct (addressText_plain _ Hb) as [_ Hbeq].
  destruct token_badge_apart as [Hn1 Hn2].
  unfold updateEnv. rewrite !assignment_body, !replaceAssignment_body.
  split.
  - apply replace_other; auto. apply replace_own; auto.
  - apply replace_own; auto.
Qed.

(** The [REACT_APP_] replacements find their keys settled already. *)
Lemma updateReactEnv_same token badge content :
  addressText token = true -> addressText badge = true ->
  updateReactEnv token badge (updateEnv token badge content)
  = updateEnv token badge content.
Proof.
  intros Ht Hb.
  destruct (addressText_plain _ Ht) as [Htplain _].
  destruct (addressText_plain _ Hb) as [Hbplain _].
  destruct (updateEnv_settles token badge content Ht Hb) as [H7 H8].
  rewrite assignment_body in H7, H8.
  unfold updateReactEnv. rewrite !replaceAssignment_body.
  rewrite (replace_settled (code_units "REACT_APP_THANK_YOU_TOKEN_ADDRESS")
             token); [| reflexivity | exact Htplain |].
  - apply replace_settled; [reflexivity | exact Hbplain |].
    apply (assigns_prefixed (code_units "REACT_APP_")
             (code_units "BADGE_NFT_ADDRESS" ++ [EQUALS])), H8.
  - apply (assigns_prefixed (code_units "REACT_APP_")
             (code_units "THANK_YOU_TOKEN_ADDRESS" ++ [EQUALS])), H7.
Qed.

Lemma updateEnv_again token badge content :
  addressText token = true -> addressText badge = true ->
  updateEnv token badge (updateEnv token badge content)
  = updateEnv token badge content.
Proof.
  intros Ht Hb.
  destruct (addressText_plain _ Ht) as [Htplain _].
  destruct (addressText_plain _ Hb) as [Hbplain _].
  destruct (updateEnv_settles token badge content Ht Hb) as [H7 H8].
  rewrite assignment_body in H7, H8.
  set (c := updateEnv token badge content) in *.
  unfold updateEnv at 1. rewrite !replaceAssignment_body.
  rewrite (replace_settled (code_units "THANK_YOU_TOKEN_ADDRESS") token c);
    [| reflexivity | exact Htplain | exact H7].
  apply replace_settled; [reflexivity | exact Hbplain | exact H8].
Qed.

(** What [main] writes, it writes after both deployments and the read. *)
Lemma main_written env w c :
  c ∈ written (main env w) ->
  configured env = true
  /\ firstWriteError w = None
  /\ exists token badge content,
      tokenDeployment w = App.Resolved token
      /\ badgeDeployment w = App.Resolved badge
      /\ envFile w = App.Resolved content
      /\ (c = updateEnv token badge content
          \/ c = updateReactEnv token badge
                   (updateEnv token badge content)
             /\ secondWriteError w = None).
Proof.
  unfold main.
  destruct (configured env); cbn [negb written];
    [| intros H; apply elem_of_nil in H; contradiction].
  destruct (tokenDeployment w) as [token | ?]; cbn [written];
    [| intros H; apply elem_of_nil in H; contradiction].
  destruct (badgeDeployment w) as [badge | ?]; cbn [written];
    [| intros H; apply elem_of_nil in H; contradiction].
  destruct (envFile w) as [content | ?]; cbn [written];
    [| intros H; apply elem_of_nil in H; contradiction].
  destruct (firstWriteError w); cbn [written];
    [intros H; apply elem_of_nil in H; contradiction |].
  destruct (secondWriteError w); cbn [written]; intros Hc;
    (split; [reflexivity |]); (split; [reflexivity |]);
    exists token, badge, content; repeat (split; [reflexivity |]).
  - apply list_elem_of_singleton in Hc. left. exact Hc.
  - apply elem_of_cons in Hc. destruct Hc as [Hc | Hc]; [left; exact Hc |].
    apply list_elem_of_singleton in Hc. right. split; [exact Hc | reflexivity].
Qed.

Lemma line_breaks_plain text : plain text -> line_breaks text = [].
Proof.
  induction 1 as [| c text Hc _ IH]; [reflexivity |].
  unfold line_breaks in *. cbn [List.filter]. rewrite Hc. exact IH.
Qed.

Lemma replace_line_breaks body value : forall text in_match,
  key_ok body = true -> plain value ->
  line_breaks (replace_from (body ++ [EQUALS]) ((body ++ [EQUALS]) ++ value)
                 in_match text)
  = line_breaks text.
Proof.
  intros text in_match Hkey Hvalue.
  destruct (key_ok_facts body Hkey) as [_ [_ [Hkplain _]]].
  revert in_match. induction text as [| c text IH]; intros in_match;
    [reflexivity |].
  cbn [replace_from].
  destruct (in_match && negb (is_line_terminator c)) eqn:Hskip.
  - apply andb_true_iff in Hskip. destruct Hskip as [_ Hc].
    apply negb_true_iff in Hc.
    rewrite IH. unfold line_breaks. cbn [List.filter]. rewrite Hc.
    reflexivity.
  - destruct (starts_with (body ++ [EQUALS]) (c :: text)) eqn:Hs.
    + assert (Hc : is_line_terminator c = false).
      { destruct (is_line_terminator c) eqn:Hc; [| reflexivity].
        rewrite (key2_head body EQUALS value Hkplain c text Hc) in Hs.
        discriminate. }
      assert (Hrep : line_breaks ((body ++ [EQUALS]) ++ value) = []).
      { apply line_breaks_plain, Forall_app. split; assumption. }
      unfold line_breaks in *. rewrite List.filter_app, Hrep.
      cbn [app List.filter]. rewrite Hc. apply IH.
    + unfold line_breaks in *. cbn [List.filter]. rewrite IH. reflexivity.
Qed.

Lemma updateEnv_line_breaks token badge content :
  addressText token = true -> addressText badge = true ->
  line_breaks (updateEnv token badge content) = line_breaks content.
Proof.
  intros Ht Hb.
  destruct (addressText_plain _ Ht) as [Htplain _].
  destruct (addressText_plain _ Hb) as [Hbplain _].
  unfold updateEnv. rewrite !replaceAssignment_body.
  rewrite !replace_line_breaks; auto.
Qed.

Lemma occurs_prefixed lead key text :
  occurs (lead ++ key) text -> occurs key text.
Proof.
  intros [pre [post ->]]. exists (pre ++ lead)%list, post.
  rewrite <- !app_assoc. reflexivity.
Qed.

Lemma replace_absent body value text :
  key_ok body = true -> plain value ->
  ~ occurs (body ++ [EQUALS]) text ->
  replace_from (body ++ [EQUALS]) ((body ++ [EQUALS]) ++ value) false text
  = text.
Proof.
  intros Hkey Hvalue Hno. apply replace_settled; [exact Hkey | exact Hvalue |].
  intros pre post Heq. destruct Hno. exists pre, post. exact Heq.
Qed.

Lemma occurs_occursb key text : occurs key text -> occursb key text = true.
Proof.
  intros [pre [post ->]]. induction pre as [| c pre IH].
  - assert (Hs : starts_with key (key ++ post) = true)
      by (apply starts_with_spec; exists post; reflexivity).
    cbn [app]. revert Hs. generalize (key ++ post)%list. intros l Hs.
    destruct l; cbn [occursb]; rewrite Hs; reflexivity.
  - cbn [app occursb]. rewrite IH. apply orb_true_r.
Qed.

End EnvFile.

Section DeployScript.
Import Deploy.

(** X1: whatever [main] writes to the [.env] file, wherever one of the
    four keys occurs in it, the address of its contract and the end of the
    line follow. *)
Theorem env_written_assigns (env : Env) (w : World) (token badge c : list N) :
  tokenDeployment w = App.Resolved token ->
  badgeDeployment w = App.Resolved badge ->
  addressText token = true -> addressText badge = true ->
  c ∈ written (main env w) ->
  assigns (assignment "THANK_YOU_TOKEN_ADDRESS") token c
  /\ assigns (assignment "BADGE_NFT_ADDRESS") badge c
  /\ assigns (assignment "REACT_APP_THANK_YOU_TOKEN_ADDRESS") token c
  /\ assigns (assignment "REACT_APP_BADGE_NFT_ADDRESS") badge c.
Proof.
  intros Htoken Hbadge Ht Hb Hc.
  destruct (main_written env w c Hc)
    as [_ [_ [token' [badge' [content [Htoken' [Hbadge' [_ Hcase]]]]]]]].
  rewrite Htoken in Htoken'. injection Htoken' as <-.
  rewrite Hbadge in Hbadge'. injection Hbadge' as <-.
  assert (Hc1 : c = updateEnv token badge content).
  { destruct Hcase as [-> | [-> _]]; [reflexivity |].
    apply updateReactEnv_same; assumption. }
  subst c.
  destruct (updateEnv_settles token badge content Ht Hb) as [H7 H8].
  split; [exact H7 |]. split; [exact H8 |].
  rewrite assignment_body in H7, H8. rewrite !assignment_body. split.
  - apply (assigns_prefixed (code_units "REACT_APP_")
             (code_units "THANK_YOU_TOKEN_ADDRESS" ++ [EQUALS])), H7.
  - apply (assigns_prefixed (code_units "REACT_APP_")
             (code_units "BADGE_NFT_ADDRESS" ++ [EQUALS])), H8.
Qed.

Lemma env_written_assigns_witness :
  let c := updateEnv tokenAt badgeAt sampleFile in
  addressText tokenAt = true /\ addressText badgeAt = true
  /\ c ∈ written (main sampleEnv (sampleWorld sampleFile))
  /\ assigns (assignment "THANK_YOU_TOKEN_ADDRESS") tokenAt c
  /\ assigns (assignment "REACT_APP_BADGE_NFT_ADDRESS") badgeAt c.
Proof.
  intros c.
  assert (Hc : c ∈ written (main sampleEnv (sampleWorld sampleFile))).
  { apply elem_of_cons. left. reflexivity. }
  split; [reflexivity |]. split; [reflexivity |]. split; [exact Hc |].
  destruct (env_written_assigns sampleEnv (sampleWorld sampleFile)
              tokenAt badgeAt c eq_refl eq_refl eq_refl eq_refl Hc)
    as [H7 [_ [_ H8']]].
  split; [exact H7 | exact H8'].
Defined.

(** X2: the second write of [main] never changes the file: the
    replacements of the two plain keys have already rewritten the
    [REACT_APP_] lines, which contain those keys. *)
Theorem env_second_write_same (env : Env) (w : World)
        (token badge c1 c2 : list N) :
  tokenDeployment w = App.Resolved token ->
  badgeDeployment w = App.Resolved badge ->
  addressText token = true -> addressText badge = true ->
  written (main env w) = [c1; c2] ->
  c2 = c1.
Proof.
  intros Htoken Hbadge Ht Hb. unfold main. rewrite Htoken, Hbadge.
  destruct (negb (configured env)); [discriminate |].
  destruct (envFile w) as [content |]; [| discriminate].
  destruct (firstWriteError w); [discriminate |].
  destruct (secondWriteError w); [discriminate |].
  cbn [written]. intros [= <- <-].
  apply updateReactEnv_same; assumption.
Qed.

Lemma env_second_write_same_witness :
  addressText tokenAt = true /\ addressText badgeAt = true
  /\ exists c1 c2,
      written (main sampleEnv (sampleWorld sampleFile)) = [c1; c2]
      /\ c2 = c1.
Proof.
  split; [reflexivity |]. split; [reflexivity |].
  exists (updateEnv tokenAt badgeAt sampleFile),
         (updateReactEnv tokenAt badgeAt
            (updateEnv tokenAt badgeAt sampleFile)).
  split; [reflexivity |].
  exact (env_second_write_same sampleEnv (sampleWorld sampleFile)
           tokenAt badgeAt _ _ eq_refl eq_refl eq_refl eq_refl eq_refl).
Defined.

(** X3: run again over the file it wrote, with deployments at the same
    addresses, [main] writes that file back unchanged. *)
Theorem env_rerun_same (env : Env) (token badge content : list N) :
  configured env = true ->
  addressText token = true -> addressText badge = true ->
  let c := updateEnv token badge content in
  written (main env (readyWorld token badge content)) = [c; c]
  /\ written (main env (readyWorld token badge c)) = [c; c].
Proof.
  intros Hconf Ht Hb c.
  assert (Hreact : updateReactEnv token badge c = c)
    by (apply updateReactEnv_same; assumption).
  assert (Hagain : updateEnv token badge c = c)
    by (apply updateEnv_again; assumption).
  unfold main. rewrite Hconf.
  cbn [negb readyWorld tokenDeployment badgeDeployment envFile
       firstWriteError secondWriteError].
  fold c. rewrite Hagain, Hreact. split; reflexivity.
Qed.

Lemma env_rerun_same_witness :
  let c := updateEnv tokenAt badgeAt sampleFile in
  configured sampleEnv = true
  /\ written (main sampleEnv (readyWorld tokenAt badgeAt c)) = [c; c].
Proof.
  intros c. split; [reflexivity |].
  exact (proj2 (env_rerun_same sampleEnv tokenAt badgeAt sampleFile
                  eq_refl eq_refl eq_refl)).
Defined.

(** X4: [main] never adds a key: a [.env] file in which neither
    [THANK_YOU_TOKEN_ADDRESS=] nor [BADGE_NFT_ADDRESS=] occurs is written
    back as it was, so the addresses are recorded nowhere. *)
Theorem env_keys_never_added (env : Env) (token badge content : list N) :
  configured env = true ->
  addressText token = true -> addressText badge = true ->
  ~ occurs (assignment "THANK_YOU_TOKEN_ADDRESS") content ->
  ~ occurs (assignment "BADGE_NFT_ADDRESS") content ->
  written (main env (readyWorld token badge content)) = [content; content]
  /\ exitCode (main env (readyWorld token badge content)) = 0.
Proof.
  intros Hconf Ht Hb Hno7 Hno8.
  destruct (addressText_plain _ Ht) as [Htplain _].
  destruct (addressText_plain _ Hb) as [Hbplain _].
  rewrite assignment_body in Hno7, Hno8.
  assert (H1 : updateEnv token badge content = content).
  { unfold updateEnv. rewrite !replaceAssignment_body.
    rewrite (replace_absent (code_units "THANK_YOU_TOKEN_ADDRESS"));
      [| reflexivity | exact Htplain | exact Hno7].
    apply replace_absent; [reflexivity | exact Hbplain | exact Hno8]. }
  assert (H2 : updateReactEnv token badge content = content).
  { unfold updateReactEnv. rewrite !replaceAssignment_body.
    rewrite (replace_absent
               (code_units "REACT_APP_THANK_YOU_TOKEN_ADDRESS"));
      [| reflexivity | exact Htplain |].
    - apply replace_absent; [reflexivity | exact Hbplain |].
      intros Hocc. apply Hno8.
      apply (occurs_prefixed (code_units "REACT_APP_")), Hocc.
    - intros Hocc. apply Hno7.
      apply (occurs_prefixed (code_units "REACT_APP_")), Hocc. }
  unfold main. rewrite Hconf.
  cbn [negb readyWorld tokenDeployment badgeDeployment envFile
       firstWriteError secondWriteError written exitCode].
  rewrite H1, H2. split; reflexivity.
Qed.

Lemma env_keys_never_added_witness :
  let file := code_units "FOO=1" in
  configured sampleEnv = true
  /\ written (main sampleEnv (readyWorld tokenAt badgeAt file)) = [file; file].
Proof.
  intros file. split; [reflexivity |].
  refine (proj1 (env_keys_never_added sampleEnv tokenAt badgeAt file
                   eq_refl eq_refl eq_refl _ _)).
  - intros H. apply occurs_occursb in H. vm_compute in H. discriminate H.
  - intros H. apply occurs_occursb in H. vm_compute in H. discriminate H.
Defined.

(** X5: [main] keeps the lines of the file: what it writes has the line
    terminators of the file it read, in the same order. *)
Theorem env_line_breaks_kept (env : Env) (w : World)
        (token badge content c : list N) :
  tokenDeployment w = App.Resolved token ->
  badgeDeployment w = App.Resolved badge ->
  envFile w = App.Resolved content ->
  addressText token = true -> addressText badge = true ->
  c ∈ written (main env w) ->
  line_breaks c = line_breaks content.
Proof.
  intros Htoken Hbadge Hfile Ht Hb Hc.
  destruct (main_written env w c Hc)
    as [_ [_ [token' [badge' [content' [Htoken' [Hbadge' [Hfile' Hcase]]]]]]]].
  rewrite Htoken in Htoken'. injection Htoken' as <-.
  rewrite Hbadge in Hbadge'. injection Hbadge' as <-.
  rewrite Hfile in Hfile'. injection Hfile' as <-.
  assert (Hc1 : c = updateEnv token badge content).
  { destruct Hcase as [-> | [-> _]]; [reflexivity |].
    apply updateReactEnv_same; assumption. }
  subst c. apply updateEnv_line_breaks; assumption.
Qed.

Lemma env_line_breaks_kept_witness :
  let c := updateEnv tokenAt badgeAt sampleFile in
  c ∈ written (main sampleEnv (sampleWorld sampleFile))
  /\ line_breaks c = [10; 10; 13; 10; 10]%N.
Proof.
  intros c.
  assert (Hc : c ∈ written (main sampleEnv (sampleWorld sampleFile))).
  { apply elem_of_cons. left. reflexivity. }
  split; [exact Hc |].
  exact (env_line_breaks_kept sampleEnv (sampleWorld sampleFile)
           tokenAt badgeAt sampleFile c eq_refl eq_refl eq_refl
           eq_refl eq_refl Hc).
Defined.

(** X6: [main] writes to the [.env] file only when the three variables
    are set, both contracts are deployed and the file could be read; it
    exits with code 0 exactly when it has written twice. *)
Theorem main_writes_after_deployments (env : Env) (w : World) :
  (written (main env w) <> [] ->
   configured env = true
   /\ deployed (main env w) = ["ThankYouToken"; "BadgeNFT"]
   /\ (exists token, tokenDeployment w = App.Resolved token)
   /\ (exists badge, badgeDeployment w = App.Resolved badge)
   /\ (exists content, envFile w = App.Resolved content))
  /\ (exitCode (main env w) = 0 <-> length (written (main env w)) = 2%nat)
  /\ (exitCode (main env w) = 0 \/ exitCode (main env w) = 1).
Proof.
  unfold main.
  destruct (configured env); cbn [negb];
    [| cbn; repeat split; try congruence; try discriminate; auto].
  destruct (tokenDeployment w) as [token | ?];
    [| cbn; repeat split; try congruence; try discriminate; auto].
  destruct (badgeDeployment w) as [badge | ?];
    [| cbn; repeat split; try congruence; try discriminate; auto].
  destruct (envFile w) as [content | ?];
    [| cbn; repeat split; try congruence; try discriminate; auto].
  destruct (firstWriteError w);
    [cbn; repeat split; try congruence; try discriminate; auto |].
  destruct (secondWriteError w);
    cbn [written deployed exitCode length];
    repeat split; try congruence; try discriminate; eauto.
Qed.

Lemma main_writes_after_deployments_witness :
  written (main sampleEnv (sampleWorld sampleFile)) <> []
  /\ configured sampleEnv = true
  /\ exitCode (main sampleEnv (sampleWorld sampleFile)) = 0.
Proof.
  assert (Hw : written (main sampleEnv (sampleWorld sampleFile)) <> [])
    by (vm_compute; discriminate).
  destruct (main_writes_after_deployments sampleEnv (sampleWorld sampleFile))
    as [Hwr [Hexit _]].
  split; [exact Hw |]. split; [exact (proj1 (Hwr Hw)) |].
  apply Hexit. reflexivity.
Defined.

End DeployScript.

(** ** [execAction]: what a run leaves behind *)

Section ExecuteOutcome.
Import App.

Variables (lib : Lib) (s1 s2 : Stamp) (resp : Outcome ExecResponse).

(** X7: a request is posted only past the guard and the checks, and it
    names the connected account and the recommended action. *)
Theorem execAction_sent_guarded (st : AppState) (p : Payload) :
  sent (execAction lib s1 s2 resp st) = Some p ->
  exists rec addr action,
    recommendation st = Some rec
    /\ address st = Some addr
    /\ provider st = true
    /\ AVAILABLE_ACTIONS !! action_id rec = Some action
    /\ paramsAccepted lib action st
    /\ up_address p = addr
    /\ p_action_id p = action_id rec.
Proof.
  intros Hsent.
  destruct (recommendation st) as [rec |] eqn:Hrec;
    [| unfold execAction in Hsent; rewrite Hrec in Hsent; discriminate].
  destruct (address st) as [addr |] eqn:Haddr;
    [| unfold execAction in Hsent; rewrite Hrec, Haddr in Hsent;
       discriminate].
  destruct (provider st) eqn:Hprov;
    [| unfold execAction in Hsent; rewrite Hrec, Haddr, Hprov in Hsent;
       discriminate].
  destruct (JS.truthy (Some addr)) eqn:Htruthy;
    [| unfold execAction in Hsent;
       rewrite Hrec, Haddr, Hprov, Htruthy in Hsent; discriminate].
  destruct (AVAILABLE_ACTIONS !! action_id rec) as [action |] eqn:Hact;
    [| unfold execAction in Hsent;
       rewrite Hrec, Haddr, Hprov, Htruthy in Hsent;
       cbn [negb orb action_id] in Hsent; rewrite Hact in Hsent;
       discriminate].
  rewrite (execAction_run lib s1 s2 resp st rec addr action
             Hrec Haddr Hprov Htruthy Hact) in Hsent.
  cbv zeta in Hsent.
  pose proof (buildPayload_spec lib addr rec action st) as Hspec.
  destruct (buildPayload lib addr rec action
              (target st) (content st) (amount st)) as [p0 | msg];
    [| discriminate Hsent].
  assert (p = p0) by (destruct resp; simpl in Hsent; congruence).
  subst p0. destruct Hspec as [Hok ->].
  exists rec, addr, action. repeat split; auto; apply Hok.
Qed.

(** X8: past the guard, with an action of the table, an execution ends in
    one of two states and [loading.exec] is off again in both. Either it
    succeeded: the request was posted, the recommendation is cleared, the
    three inputs are back to their defaults, no error is shown and a
    metrics refresh is scheduled. Or it failed: an error is shown, no
    refresh is scheduled, and the recommendation and the inputs are as
    they were, ready for another try. *)
Theorem execAction_success_or_retry (st : AppState) :
  started (ExecuteAttempt lib resp) st = true ->
  let run := execAction lib s1 s2 resp st in
  uncaught run = None
  /\ l_exec (loading (final run)) = false
  /\ ((refresh_scheduled run = true
       /\ is_Some (sent run)
       /\ recommendation (final run) = None
       /\ target (final run) = ""
       /\ content (final run) = ""
       /\ amount (final run) = "1"
       /\ error (final run) = None)
      \/ (refresh_scheduled run = false
          /\ is_Some (error (final run))
          /\ recommendation (final run) = recommendation st
          /\ target (final run) = target st
          /\ content (final run) = content st
          /\ amount (final run) = amount st)).
Proof.
  intros Hstarted run. subst run.
  destruct (started_execute lib resp st Hstarted)
    as [rec [addr [action [Hrec [Haddr [Hprov [Htruthy Hact]]]]]]].
  rewrite (execAction_run lib s1 s2 resp st rec addr action
             Hrec Haddr Hprov Htruthy Hact).
  cbv zeta.
  destruct (buildPayload lib addr rec action
              (target st) (content st) (amount st)) as [p | msg];
    [destruct resp as [res | msg] |].
  - split; [reflexivity |]. split; [reflexivity |]. left.
    split; [reflexivity |]. split; [eexists; reflexivity |].
    repeat split; reflexivity.
  - split; [reflexivity |]. split; [reflexivity |]. right.
    split; [reflexivity |]. split; [eexists; reflexivity |].
    repeat split; reflexivity.
  - split; [reflexivity |]. split; [reflexivity |]. right.
    split; [reflexivity |]. split; [eexists; reflexivity |].
    repeat split; reflexivity.
Qed.

End ExecuteOutcome.

Section ExecuteOutcomeExamples.
Import App.

Lemma execAction_sent_guarded_witness :
  exists p,
    sent (execAction sampleLib stampA stampB confirmedResponse followReady)
    = Some p
    /\ up_address p = "0x00000000000000000000000000000000000000aa"
    /\ p_action_id p = 1.
Proof.
  assert (Hsent : sent (execAction sampleLib stampA stampB
                          confirmedResponse followReady)
                  = Some {| up_address :=
                              "0x00000000000000000000000000000000000000aa";
                            p_action_id := 1;
                            target_address :=
                              Some "0x0000000000000000000000000000000000000abc";
                            post_content_cid := None;
                            reward_amount_wei := None |})
    by (vm_compute; reflexivity).
  eexists. split; [exact Hsent |].
  destruct (execAction_sent_guarded sampleLib stampA stampB
              confirmedResponse followReady _ Hsent)
    as [rec [addr [action [Hrec [Haddr [_ [_ [_ [Hup Hid]]]]]]]]].
  injection Hrec as <-. injection Haddr as <-.
  split; [exact Hup | exact Hid].
Defined.

Lemma execAction_success_or_retry_witness :
  started (ExecuteAttempt sampleLib (Rejected "Network Error"))
    Samples.recommended = true
  /\ l_exec (loading (final (execAction sampleLib stampA stampB
                               (Rejected "Network Error")
                               Samples.recommended))) = false.
Proof.
  split; [reflexivity |].
  exact (proj1 (proj2 (execAction_success_or_retry sampleLib stampA stampB
                         (Rejected "Network Error") Samples.recommended
                         eq_refl))).
Defined.

End ExecuteOutcomeExamples.

(** ** Rounding to binary64 *)

Section DoubleFacts.
Import Double.

Lemma pow2_pos k : (0 < pow2 k)%Q.
Proof. apply Qpower_0_lt. reflexivity. Qed.

Lemma pow2_lt_inv a b : (pow2 a < pow2 b)%Q -> a < b.
Proof. intros H. apply (Qpower_lt_compat_l_inv 2); [exact H | reflexivity]. Qed.

Lemma pow2_le a b : a <= b -> (pow2 a <= pow2 b)%Q.
Proof. intros H. apply Qpower_le_compat_l; [exact H | discriminate]. Qed.

Lemma pow2_Z n : 0 <= n -> (pow2 n == inject_Z (2 ^ n))%Q.
Proof. intros Hn. unfold pow2. rewrite Zpower_Qpower by exact Hn. reflexivity. Qed.

Lemma pow2_split a b : (pow2 (a + b) == pow2 a * pow2 b)%Q.
Proof. apply Qpower_plus. discriminate. Qed.

(** The binary logarithm, rounded down. *)
Lemma ilog2_spec x :
  (0 < x)%Q -> (pow2 (ilog2 x) <= x)%Q /\ (x < pow2 (ilog2 x + 1))%Q.
Proof.
  intros Hx. destruct x as [p q]. unfold Qlt in Hx. simpl in Hx.
  assert (Hp : 0 < p) by lia.
  pose proof (Z.log2_spec p Hp) as [Hp1 Hp2].
  pose proof (Z.log2_spec (Zpos q) (Pos2Z.is_pos q)) as [Hq1 Hq2].
  pose proof (Z.log2_nonneg p) as Hlp.
  pose proof (Z.log2_nonneg (Zpos q)) as Hlq.
  set (lp := Z.log2 p) in *. set (lq := Z.log2 (Zpos q)) in *.
  assert (Hx' : (p # q) * inject_Z (Zpos q) == inject_Z p).
  { unfold Qeq, Qmult, inject_Z. simpl. lia. }
  assert (HP1 : (pow2 lp <= inject_Z p)%Q)
    by (rewrite pow2_Z by lia; rewrite <- Zle_Qle; exact Hp1).
  assert (HP2 : (inject_Z p < pow2 (lp + 1))%Q)
    by (rewrite pow2_Z by lia; rewrite <- Zlt_Qlt; exact Hp2).
  assert (HQ1 : (pow2 lq <= inject_Z (Zpos q))%Q)
    by (rewrite pow2_Z by lia; rewrite <- Zle_Qle; exact Hq1).
  assert (HQ2 : (inject_Z (Zpos q) < pow2 (lq + 1))%Q)
    by (rewrite pow2_Z by lia; rewrite <- Zlt_Qlt; exact Hq2).
  assert (Hxpos : (0 < p # q)%Q) by (unfold Qlt; simpl; lia).
  assert (Hqpos : (0 < inject_Z (Zpos q))%Q) by reflexivity.
  (* the quotient lies between the neighbouring powers *)
  assert (Hlow : (pow2 (lp - lq - 1) <= p # q)%Q).
  { pose proof (pow2_split (lp - lq - 1) (lq + 1)) as Hs.
    replace (lp - lq - 1 + (lq + 1)) with lp in Hs by lia.
    pose proof (pow2_pos (lp - lq - 1)). pose proof (pow2_pos (lq + 1)).
    apply Qnot_lt_le. intros Hc.
    assert ((p # q) * pow2 (lq + 1) < pow2 (lp - lq - 1) * pow2 (lq + 1))%Q
      by (apply Qmult_lt_compat_r; assumption).
    assert ((p # q) * inject_Z (Zpos q) <= (p # q) * pow2 (lq + 1))%Q.
    { rewrite !(Qmult_comm (p # q)).
      apply Qmult_le_compat_r; [apply Qlt_le_weak, HQ2 | apply Qlt_le_weak, Hxpos]. }
    lra. }
  assert (Hhigh : (p # q < pow2 (lp - lq + 1))%Q).
  { pose proof (pow2_split (lp - lq + 1) lq) as Hs.
    replace (lp - lq + 1 + lq) with (lp + 1) in Hs by lia.
    pose proof (pow2_pos (lp - lq + 1)). pose proof (pow2_pos lq).
    apply Qnot_le_lt. intros Hc.
    assert (pow2 (lp - lq + 1) * pow2 lq <= (p # q) * pow2 lq)%Q
      by (apply Qmult_le_compat_r; [exact Hc | apply Qlt_le_weak; assumption]).
    assert ((p # q) * pow2 lq <= (p # q) * inject_Z (Zpos q))%Q.
    { rewrite !(Qmult_comm (p # q)).
      apply Qmult_le_compat_r; [exact HQ1 | apply Qlt_le_weak, Hxpos]. }
    lra. }
  unfold ilog2. cbn [Qnum Qden]. fold lp lq.
  destruct (Qle_bool (pow2 (lp - lq)) (p # q)) eqn:Ht.
  - split; [apply Qle_bool_iff, Ht | exact Hhigh].
  - split; [exact Hlow |].
    replace (lp - lq - 1 + 1) with (lp - lq) by lia.
    apply Qnot_le_lt. intros Hc. apply Qle_bool_iff in Hc. congruence.
Qed.

Lemma nearest_even_near t :
  (t - (1 # 2) <= inject_Z (nearest_even t))%Q
  /\ (inject_Z (nearest_even t) <= t + (1 # 2))%Q.
Proof.
  unfold nearest_even.
  pose proof (Qfloor_le t) as Hlo. pose proof (Qlt_floor t) as Hhi.
  rewrite inject_Z_plus in Hhi. change (inject_Z 1) with 1%Q in Hhi.
  destruct (Qcompare_spec (t - inject_Z (Qfloor t)) (1 # 2)) as [He | Hl | Hg].
  - destruct (Z.even (Qfloor t)).
    + split; lra.
    + rewrite inject_Z_plus. change (inject_Z 1) with 1%Q. split; lra.
  - split; lra.
  - rewrite inject_Z_plus. change (inject_Z 1) with 1%Q. split; lra.
Qed.

Lemma round_positive x : (0 < x)%Q -> round x = round_pos x.
Proof.
  destruct x as [p q]. unfold Qlt. simpl. intros Hp. unfold round. cbn [Qnum].
  destruct p; [lia | reflexivity | lia].
Qed.

Lemma round_zero x : (x == 0)%Q -> round x = 0%Q.
Proof.
  destruct x as [p q]. unfold Qeq. simpl. intros Hp. unfold round. cbn [Qnum].
  destruct p; [reflexivity | lia | lia].
Qed.

(** Rounding a positive number below [2 ^ e] moves it by at most half a unit
    in the last place of that range, and not below zero. *)
Lemma round_near x e :
  (0 < x)%Q -> (x < pow2 e)%Q -> emin <= e - 53 ->
  (0 <= round x)%Q /\ (round x <= x + pow2 (e - 53) * (1 # 2))%Q
  /\ (x - pow2 (e - 53) * (1 # 2) <= round x)%Q.
Proof.
  intros Hx He Hmin. rewrite (round_positive x Hx). unfold round_pos.
  destruct (ilog2_spec x Hx) as [Hl _].
  assert (Hil : ilog2 x < e).
  { apply pow2_lt_inv. apply Qle_lt_trans with x; assumption. }
  assert (Hk : ulp_exp x <= e - 53) by (unfold ulp_exp; lia).
  set (k := ulp_exp x) in *.
  pose proof (pow2_pos k) as Hkpos. pose proof (pow2_le k (e - 53) Hk) as Hkle.
  destruct (nearest_even_near (x / pow2 k)) as [Hn1 Hn2].
  set (n := inject_Z (nearest_even (x / pow2 k))) in *.
  assert (Hdiv : (x / pow2 k * pow2 k == x)%Q).
  { field. intros H0. rewrite H0 in Hkpos. discriminate. }
  assert (H1 : ((x / pow2 k - (1 # 2)) * pow2 k <= n * pow2 k)%Q)
    by (apply Qmult_le_compat_r; [exact Hn1 | lra]).
  assert (H2 : (n * pow2 k <= (x / pow2 k + (1 # 2)) * pow2 k)%Q)
    by (apply Qmult_le_compat_r; [exact Hn2 | lra]).
  assert (H3 : ((x / pow2 k - (1 # 2)) * pow2 k == x - pow2 k * (1 # 2))%Q)
    by (rewrite <- Hdiv at 2; ring).
  assert (H4 : ((x / pow2 k + (1 # 2)) * pow2 k == x + pow2 k * (1 # 2))%Q)
    by (rewrite <- Hdiv at 2; ring).
  assert (Hn0 : (0 <= n)%Q).
  { assert (Hq : (0 <= x / pow2 k)%Q).
    { apply Qle_shift_div_l; [exact Hkpos | lra]. }
    assert (Hz : -1 < nearest_even (x / pow2 k)).
    { rewrite Zlt_Qlt. fold n. change (inject_Z (-1)) with (-1)%Q. lra. }
    unfold n. change 0%Q with (inject_Z 0). rewrite <- Zle_Qle. lia. }
  split; [| split].
  - apply Qmult_le_0_compat; [exact Hn0 | lra].
  - lra.
  - lra.
Qed.

(** The model at a few numbers: the literal [0.1], two ties, of which
    the even neighbour is taken, and the product of 0.018 with 500, which
    is below 9 before rounding. *)
Lemma round_samples :
  (tenth == 3602879701896397 # 36028797018963968)%Q
  /\ (round (9007199254740993 # 1) == 9007199254740992 # 1)%Q
  /\ (round (9007199254740995 # 1) == 9007199254740996 # 1)%Q
  /\ (mul (5188146770730811 # 288230376151711744) 500 == 9)%Q
  /\ ((5188146770730811 # 288230376151711744) * 500 < 9)%Q.
Proof. vm_compute. repeat split; reflexivity. Qed.

(** A number below one that is a double is at most [1 - 2 ^ -53]. *)
Lemma double_below_one r :
  is_double r -> (0 <= r)%Q -> (r < 1)%Q ->
  (r <= 1 - (1 # 9007199254740992))%Q.
Proof.
  intros Hd H0 H1.
  destruct (Qlt_le_dec r (1 # 2)) as [Hsmall | Hbig]; [lra |].
  assert (Hpos : (0 < r)%Q) by lra.
  unfold is_double in Hd. rewrite (round_positive r Hpos) in Hd.
  unfold round_pos in Hd.
  destruct (ilog2_spec r Hpos) as [Hl Hh].
  assert (Hil : ilog2 r = -1).
  { assert (ilog2 r < 0).
    { apply pow2_lt_inv. apply Qle_lt_trans with r; [exact Hl |].
      change (pow2 0) with 1%Q. exact H1. }
    assert (-1 < ilog2 r + 1).
    { apply pow2_lt_inv. apply Qle_lt_trans with r; [| exact Hh].
      change (pow2 (-1)) with (1 # 2)%Q. exact Hbig. }
    lia. }
  assert (Hk : ulp_exp r = -53) by (unfold ulp_exp; rewrite Hil; reflexivity).
  rewrite Hk in Hd.
  change (pow2 (-53)) with (1 # 9007199254740992)%Q in Hd.
  set (n := nearest_even (r / (1 # 9007199254740992))) in *.
  assert (Hn : n < 9007199254740992).
  { rewrite Zlt_Qlt. change (inject_Z 9007199254740992)
      with 9007199254740992%Q. lra. }
  assert (Hn' : (inject_Z n <= 9007199254740991)%Q).
  { change 9007199254740991%Q with (inject_Z 9007199254740991).
    rewrite <- Zle_Qle. lia. }
  lra.
Qed.

End DoubleFacts.

(** ** [fetchMetrics]: what a fetch stores *)

Section FetchedMetrics.
Import App.

Lemma followers_draw (r : Q) :
  Double.is_double r -> (0 <= r)%Q -> (r < 1)%Q ->
  0 <= Qfloor (Double.mul r 500) <= 499.
Proof.
  intros Hd H0 H1. unfold Double.mul.
  destruct (Qlt_le_dec 0 r) as [Hpos | Hz].
  - pose proof (double_below_one r Hd H0 H1) as Hmax.
    assert (Hx : (0 < r * 500)%Q) by lra.
    assert (Hlt : (r * 500 < Double.pow2 9)%Q)
      by (change (Double.pow2 9) with 512%Q; lra).
    destruct (round_near (r * 500) 9 Hx Hlt) as [Hlo [Hhi _]];
      [unfold Double.emin; lia |].
    change (Double.pow2 (9 - 53)) with (1 # 17592186044416)%Q in Hhi.
    split.
    + change 0 with (Qfloor 0). apply Qfloor_resp_le, Hlo.
    + assert (Hf : Qfloor (Double.round (r * 500)) < 500); [| lia].
      rewrite Zlt_Qlt.
      apply Qle_lt_trans with (Double.round (r * 500));
        [apply Qfloor_le |].
      change (inject_Z 500) with 500%Q. lra.
  - rewrite round_zero by lra. split; [reflexivity | discriminate].
Qed.

Lemma engagement_draw (r : Q) :
  (0 <= r)%Q -> (r < 1)%Q ->
  exists n, 0 <= n <= 100
            /\ toFixed3 (Double.mul r Double.tenth) = n # 1000.
Proof.
  intros H0 H1. unfold toFixed3, Double.mul.
  eexists. split; [| reflexivity].
  assert (Htl : (0 < Double.tenth)%Q) by (vm_compute; reflexivity).
  assert (Hth : (Double.tenth <= 1001 # 10000)%Q)
    by (vm_compute; discriminate).
  assert (Hround : (0 <= Double.round (r * Double.tenth))%Q
                   /\ (Double.round (r * Double.tenth) <= 1002 # 10000)%Q).
  { destruct (Qlt_le_dec 0 r) as [Hpos | Hz].
    - assert (Hx : (0 < r * Double.tenth)%Q)
        by (apply Qmult_lt_0_compat; assumption).
      assert (Hle : (r * Double.tenth <= 1 * Double.tenth)%Q)
        by (apply Qmult_le_compat_r; lra).
      assert (Hlt : (r * Double.tenth < Double.pow2 0)%Q)
        by (change (Double.pow2 0) with 1%Q; lra).
      destruct (round_near (r * Double.tenth) 0 Hx Hlt) as [Hlo [Hhi _]];
        [unfold Double.emin; lia |].
      change (Double.pow2 (0 - 53)) with (1 # 9007199254740992)%Q in Hhi.
      split; [exact Hlo | lra].
    - assert (Hr : (r * Double.tenth == 0)%Q).
      { assert (Hr0 : (r == 0)%Q) by lra. rewrite Hr0. ring. }
      rewrite (round_zero _ Hr). split; [discriminate | discriminate]. }
  destruct Hround as [Hlo Hhi]. split.
  - change 0 with (Qfloor 0). apply Qfloor_resp_le. lra.
  - assert (Hf : Qfloor (Double.round (r * Double.tenth) * 1000 + (1 # 2))
                 < 101); [| lia].
    rewrite Zlt_Qlt.
    apply Qle_lt_trans
      with (Double.round (r * Double.tenth) * 1000 + (1 # 2))%Q;
      [apply Qfloor_le |].
    change (inject_Z 101) with 101%Q. lra.
Qed.

Lemma or_default_set (a : option string) (d : string) :
  d <> "" -> JS.or_default a d <> "".
Proof.
  intros Hd. destruct a as [s |]; cbn [JS.or_default]; [| exact Hd].
  destruct (String.eqb_spec s ""); assumption.
Qed.

Lemma loadMetrics_ranges chain r1 r2 m :
  Double.is_double r1 ->
  (0 <= r1)%Q -> (r1 < 1)%Q -> (0 <= r2)%Q -> (r2 < 1)%Q ->
  loadMetrics chain r1 r2 = Resolved m ->
  0 <= followers m <= 499
  /\ (exists n, 0 <= n <= 100 /\ engagementRate m = n # 1000)
  /\ (exists data,
        chain = Resolved data
        /\ postsCount m
           = Z.of_nat (length (default [] (issued_assets data))))
  /\ (exists name, profileName m = Some name /\ name <> "").
Proof.
  intros Hd H0 H1 H2 H3. unfold loadMetrics.
  destruct chain as [data | msg]; [| discriminate].
  destruct (imageCid _) as [cid | msg]; [| discriminate].
  intros [= <-]. cbn [followers engagementRate postsCount profileName].
  split; [apply followers_draw; assumption |].
  split; [apply engagement_draw; assumption |].
  split.
  - exists data. split; [reflexivity |].
    destruct (issued_assets data); reflexivity.
  - eexists. split; [reflexivity |]. apply or_default_set. discriminate.
Qed.

(** The metrics a fetch leaves, for a connected account. *)
Lemma fetchMetrics_metrics s1 s2 chain r1 r2 st :
  JS.truthy (address st) = true ->
  metrics (fetchMetrics s1 s2 chain r1 r2 st)
  = match loadMetrics chain r1 r2 with
    | Resolved m => Some m
    | Rejected _ => None
    end.
Proof.
  intros Hconn. unfold fetchMetrics. rewrite Hconn. cbn [negb].
  destruct (loadMetrics chain r1 r2); reflexivity.
Qed.

Lemma fetchMetrics_keeps s1 s2 chain r1 r2 st :
  address (fetchMetrics s1 s2 chain r1 r2 st) = address st
  /\ provider (fetchMetrics s1 s2 chain r1 r2 st) = provider st
  /\ recommendation (fetchMetrics s1 s2 chain r1 r2 st) = recommendation st.
Proof.
  unfold fetchMetrics. destruct (negb (JS.truthy (address st)));
    [repeat split |].
  destruct (loadMetrics chain r1 r2); repeat split.
Qed.

Lemma fetchMetrics_error s1 s2 chain r1 r2 st :
  JS.truthy (address st) = true ->
  error (fetchMetrics s1 s2 chain r1 r2 st)
  = match loadMetrics chain r1 r2 with
    | Resolved _ => None
    | Rejected msg => Some msg
    end.
Proof.
  intros Hconn. unfold fetchMetrics. rewrite Hconn. cbn [negb].
  destruct (loadMetrics chain r1 r2); reflexivity.
Qed.

(** The first image of the profile has no [url]. *)
Lemma loadMetrics_fails chain r1 r2 :
  (exists msg, loadMetrics chain r1 r2 = Rejected msg)
  <-> (exists msg, chain = Rejected msg)
      \/ (exists data img rest,
            chain = Resolved data
            /\ (profile_value data ≫= LSP3Profile) ≫= profileImage
               = Some (img :: rest)
            /\ url img = None).
Proof.
  unfold loadMetrics, imageCid. destruct chain as [data | msg0].
  - destruct ((profile_value data ≫= LSP3Profile) ≫= profileImage)
      as [[| img rest] |] eqn:Himg.
    + split; [intros [msg H]; discriminate H |].
      intros [[msg H] | [d [i [r [H [Hi _]]]]]]; [discriminate H |].
      injection H as <-. rewrite Himg in Hi. discriminate Hi.
    + destruct (url img) as [u |] eqn:Hurl.
      * split; [intros [msg H]; discriminate H |].
        intros [[msg H] | [d [i [r [H [Hi Hu]]]]]]; [discriminate H |].
        injection H as <-. rewrite Himg in Hi. injection Hi as <- <-.
        rewrite Hurl in Hu. discriminate Hu.
      * split; [| intros _; eexists; reflexivity].
        intros _. right. exists data, img, rest. auto.
    + split; [intros [msg H]; discriminate H |].
      intros [[msg H] | [d [i [r [H [Hi _]]]]]]; [discriminate H |].
      injection H as <-. rewrite Himg in Hi. discriminate Hi.
  - split; [intros _; left; eexists; reflexivity |].
    intros _. eexists; reflexivity.
Qed.

Lemma getRecom_unloaded s1 s2 resp st :
  metrics st = None -> snd (getRecom s1 s2 resp st) = None.
Proof. intros H. unfold getRecom. rewrite H. reflexivity. Qed.

Lemma getRecom_loaded s1 s2 resp st m addr :
  metrics st = Some m -> address st = Some addr ->
  JS.truthy (Some addr) = true ->
  snd (getRecom s1 s2 resp st)
  = Some {| rq_up_address := addr; rq_followers := followers m;
            rq_posts := postsCount m; rq_engagement := engagementRate m |}.
Proof.
  intros Hm Ha Ht. unfold getRecom. rewrite Hm, Ha, Ht. reflexivity.
Qed.

(** X10: for a connected account and two draws of [Math.random()],
    numbers that are at least 0 and below 1, the metrics a fetch stores
    have between 0 and 499 followers, an engagement rate that is a whole
    number of thousandths between 0 and 0.1, the number of issued assets
    read from the chain as post count and a name that is not empty; and
    the next recommendation request carries these numbers and the
    account. The products are those of binary64 numbers. *)
Theorem fetched_metrics_in_range (s1 s2 s3 s4 : Stamp)
        (chain : Outcome FetchedData) (r1 r2 : Q)
        (resp : Outcome ActionResponse) (st : AppState) (m : ProfileMetrics) :
  JS.truthy (address st) = true ->
  Double.is_double r1 ->
  (0 <= r1)%Q -> (r1 < 1)%Q -> (0 <= r2)%Q -> (r2 < 1)%Q ->
  metrics (fetchMetrics s1 s2 chain r1 r2 st) = Some m ->
  0 <= followers m <= 499
  /\ (exists n, 0 <= n <= 100 /\ engagementRate m = n # 1000)
  /\ (exists data,
        chain = Resolved data
        /\ postsCount m
           = Z.of_nat (length (default [] (issued_assets data))))
  /\ (exists name, profileName m = Some name /\ name <> "")
  /\ exists addr,
      address st = Some addr
      /\ snd (getRecom s3 s4 resp (fetchMetrics s1 s2 chain r1 r2 st))
         = Some {| rq_up_address := addr; rq_followers := followers m;
                   rq_posts := postsCount m;
                   rq_engagement := engagementRate m |}.
Proof.
  intros Hconn Hd H0 H1 H2 H3 Hm.
  pose proof Hm as Hload. rewrite fetchMetrics_metrics in Hload by exact Hconn.
  destruct (loadMetrics chain r1 r2) as [m' | msg] eqn:Hl; [| discriminate].
  injection Hload as ->.
  destruct (loadMetrics_ranges chain r1 r2 m Hd H0 H1 H2 H3 Hl)
    as [Hf [He [Hp Hn]]].
  split; [exact Hf |]. split; [exact He |]. split; [exact Hp |].
  split; [exact Hn |].
  destruct (address st) as [addr |] eqn:Haddr; [| discriminate Hconn].
  exists addr. split; [reflexivity |].
  destruct (fetchMetrics_keeps s1 s2 chain r1 r2 st) as [Hkeep _].
  apply getRecom_loaded; [exact Hm | rewrite Hkeep; exact Haddr | exact Hconn].
Qed.

(** The draws 0.018 and 0.015: the product of the first with 500 is just
    below 9 before rounding and 9 after it, and the second gives two
    thousandths where the exact product would give one. *)
Lemma fetched_metrics_in_range_witness :
  let r1 := (5188146770730811 # 288230376151711744)%Q in
  let r2 := (1080863910568919 # 72057594037927936)%Q in
  Double.is_double r1
  /\ Qfloor (r1 * 500) = 8
  /\ exists m,
      metrics (fetchMetrics stampA stampB (Resolved sampleData) r1 r2
                 connected) = Some m
      /\ followers m = 9
      /\ engagementRate m = (2 # 1000)%Q
      /\ 0 <= followers m <= 499.
Proof.
  intros r1 r2.
  assert (Hm : metrics (fetchMetrics stampA stampB (Resolved sampleData)
                          r1 r2 connected)
               = Some {| followers := 9; postsCount := 3;
                         engagementRate := 2 # 1000;
                         profileName := Some "Alice";
                         profileImageCid := None;
                         description := Some "" |})
    by (vm_compute; reflexivity).
  assert (Hd : Double.is_double r1) by (vm_compute; reflexivity).
  assert (Hlo1 : (0 <= r1)%Q) by (vm_compute; discriminate).
  assert (Hhi1 : (r1 < 1)%Q) by (vm_compute; reflexivity).
  assert (Hlo2 : (0 <= r2)%Q) by (vm_compute; discriminate).
  assert (Hhi2 : (r2 < 1)%Q) by (vm_compute; reflexivity).
  split; [exact Hd |]. split; [vm_compute; reflexivity |].
  eexists. split; [exact Hm |].
  destruct (fetched_metrics_in_range stampA stampB stampA stampB
              (Resolved sampleData) r1 r2
              (Rejected "Network Error") connected _
              eq_refl Hd Hlo1 Hhi1 Hlo2 Hhi2 Hm)
    as [Hf _].
  split; [reflexivity |]. split; [reflexivity | exact Hf].
Defined.

(** X11: for a connected account, a fetch ends without metrics exactly when
    reading the chain failed or the first image of the profile has no
    [url], on which [.replace] throws. An error is then shown, the next
    recommendation request is refused, and in every case the
    recommendation on screen stays and [loading.metrics] is off again. *)
Theorem fetch_fails_on_image_without_url (s1 s2 : Stamp)
        (chain : Outcome FetchedData) (r1 r2 : Q) (st : AppState) :
  JS.truthy (address st) = true ->
  let st' := fetchMetrics s1 s2 chain r1 r2 st in
  (metrics st' = None
   <-> (exists msg, chain = Rejected msg)
       \/ (exists data img rest,
             chain = Resolved data
             /\ (profile_value data ≫= LSP3Profile) ≫= profileImage
                = Some (img :: rest)
             /\ url img = None))
  /\ (metrics st' = None <-> is_Some (error st'))
  /\ (metrics st' = None ->
      forall s3 s4 resp, snd (getRecom s3 s4 resp st') = None)
  /\ recommendation st' = recommendation st
  /\ l_metrics (loading st') = false.
Proof.
  intros Hconn st'. subst st'.
  rewrite fetchMetrics_metrics, fetchMetrics_error by exact Hconn.
  split; [| split; [| split; [| split]]].
  - rewrite <- (loadMetrics_fails chain r1 r2).
    destruct (loadMetrics chain r1 r2) as [m | msg].
    + split; [discriminate | intros [msg H]; discriminate H].
    + split; [intros _; eexists; reflexivity | reflexivity].
  - destruct (loadMetrics chain r1 r2) as [m | msg].
    + split; [discriminate | intros [x H]; discriminate H].
    + split; [intros _; eexists; reflexivity | reflexivity].
  - intros Hnone s3 s4 resp. apply getRecom_unloaded.
    rewrite fetchMetrics_metrics by exact Hconn. exact Hnone.
  - apply fetchMetrics_keeps.
  - unfold fetchMetrics. rewrite Hconn. reflexivity.
Qed.

Lemma fetch_fails_on_image_without_url_witness :
  JS.truthy (address connected) = true
  /\ metrics (fetchMetrics stampA stampB (Resolved Samples.imageWithoutUrl)
                (1 # 2) (1 # 2) connected) = None.
Proof.
  split; [reflexivity |].
  apply (proj1 (fetch_fails_on_image_without_url stampA stampB
                  (Resolved Samples.imageWithoutUrl) (1 # 2) (1 # 2)
                  connected eq_refl)).
  right. exists Samples.imageWithoutUrl, {| url := None |}, [].
  repeat split.
Defined.

End FetchedMetrics.

(** ** The image identifier *)

Section ImageUrl.
Import App.

Lemma append_cons a p s : String a p ++ s = String a (p ++ s).
Proof. reflexivity. Qed.

Lemma append_empty s : "" ++ s = s.
Proof. reflexivity. Qed.

Lemma remove_first_eq pat s :
  JS.remove_first pat s
  = if String.prefix pat s
    then String.substring (String.length pat)
                          (String.length s - String.length pat) s
    else match s with
         | EmptyString => EmptyString
         | String c s' => String c (JS.remove_first pat s')
         end.
Proof. destruct s; reflexivity. Qed.

Lemma prefix_split pat : forall s,
  String.prefix pat s = true -> exists rest, s = pat ++ rest.
Proof.
  induction pat as [| a pat IH]; intros s H.
  - exists s. reflexivity.
  - destruct s as [| b s]; [discriminate H |]. cbn [String.prefix] in H.
    destruct (ascii_dec a b) as [-> |]; [| discriminate H].
    destruct (IH s H) as [rest ->]. exists rest. reflexivity.
Qed.

Lemma prefix_append pat s : String.prefix pat (pat ++ s) = true.
Proof.
  induction pat as [| a pat IH]; [destruct s; reflexivity |].
  rewrite append_cons. cbn [String.prefix].
  destruct (ascii_dec a a); [exact IH | congruence].
Qed.

Lemma length_append_nat p s :
  String.length (p ++ s) = (String.length p + String.length s)%nat.
Proof.
  induction p as [| a p IH]; [reflexivity |].
  rewrite append_cons. cbn [String.length]. rewrite IH. reflexivity.
Qed.

Lemma substring_whole s : String.substring 0 (String.length s) s = s.
Proof. induction s as [| a s IH]; [reflexivity |]. simpl. rewrite IH. reflexivity. Qed.

Lemma substring_after p s :
  String.substring (String.length p) (String.length s) (p ++ s) = s.
Proof.
  induction p as [| a p IH]; [apply substring_whole |].
  rewrite append_cons. exact IH.
Qed.

Lemma remove_first_prefix pat s : JS.remove_first pat (pat ++ s) = s.
Proof.
  rewrite remove_first_eq, prefix_append, length_append_nat.
  replace (String.length pat + String.length s - String.length pat)%nat
    with (String.length s) by lia.
  apply substring_after.
Qed.

(** [replace] with a string pattern takes out the first occurrence of
    the pattern, the one with the shortest text before it, or leaves a
    string without the pattern as it is. *)
Lemma remove_first_once pat : forall s,
  (exists pre post,
      s = pre ++ pat ++ post
      /\ (forall pre' post',
             s = pre' ++ pat ++ post' ->
             (String.length pre <= String.length pre')%nat)
      /\ JS.remove_first pat s = pre ++ post)
  \/ ((forall pre post, s <> pre ++ pat ++ post)
      /\ JS.remove_first pat s = s).
Proof.
  induction s as [| c s IH].
  - destruct pat as [| a pat].
    + left. exists "", "". split; [reflexivity |].
      split; [intros; simpl; lia | reflexivity].
    + right. split; [| reflexivity]. intros pre post H.
      destruct pre; discriminate H.
  - rewrite remove_first_eq.
    destruct (String.prefix pat (String c s)) eqn:Hp.
    + destruct (prefix_split _ _ Hp) as [rest Hrest]. left.
      exists "", rest. split; [exact Hrest |].
      split; [intros; simpl; lia |].
      rewrite Hrest. rewrite length_append_nat.
      replace (String.length pat + String.length rest - String.length pat)%nat
        with (String.length rest) by lia.
      rewrite substring_after. reflexivity.
    + assert (Hhead : forall pre post,
                 String c s = pre ++ pat ++ post ->
                 exists pre', pre = String c pre' /\ s = pre' ++ pat ++ post).
      { intros pre post H. destruct pre as [| a pre].
        - rewrite append_empty in H. rewrite H, prefix_append in Hp.
          discriminate Hp.
        - rewrite append_cons in H. injection H as -> H.
          exists pre. split; [reflexivity | exact H]. }
      destruct IH as [[pre [post [Hs [Hfirst Hr]]]] | [Hno Hr]].
      * left. exists (String c pre), post. rewrite Hr.
        split; [rewrite Hs; reflexivity |]. split; [| reflexivity].
        intros pre' post' H.
        destruct (Hhead pre' post' H) as [pre'' [-> Hs'']].
        specialize (Hfirst pre'' post' Hs''). simpl. lia.
      * right. split; [| rewrite Hr; reflexivity].
        intros pre post H.
        destruct (Hhead pre post H) as [pre' [_ Hs']].
        exact (Hno pre' post Hs').
Qed.

(** X12: the image identifier stored with the metrics is the [url] of the
    first profile image with the first occurrence of [ipfs://] taken out,
    wherever in the [url] it stands: what is kept is the text before
    that occurrence followed by the text after it. A [url] that starts
    with [ipfs://] so gives what follows it, a [url] without [ipfs://] is
    stored as it is, and a profile without image gives no identifier. *)
Theorem imageCid_strips_scheme (j : option LSP3ProfileJson) :
  (forall img rest u,
      j ≫= profileImage = Some (img :: rest) -> url img = Some u ->
      exists cid,
        imageCid j = Resolved (Some cid)
        /\ ((exists pre post,
                u = pre ++ "ipfs://" ++ post
                /\ (forall pre' post',
                       u = pre' ++ "ipfs://" ++ post' ->
                       (String.length pre <= String.length pre')%nat)
                /\ cid = pre ++ post)
            \/ ((forall pre post, u <> pre ++ "ipfs://" ++ post)
                /\ cid = u))
        /\ (forall tail, u = "ipfs://" ++ tail -> cid = tail))
  /\ (j ≫= profileImage = None \/ j ≫= profileImage = Some [] ->
      imageCid j = Resolved None).
Proof.
  split.
  - intros img rest u Himg Hurl. unfold imageCid. rewrite Himg, Hurl.
    eexists. split; [reflexivity |]. split.
    + apply remove_first_once.
    + intros tail ->. apply remove_first_prefix.
  - unfold imageCid. intros [-> | ->]; reflexivity.
Qed.

(** A gateway address with [ipfs://] inside loses it there. *)
Lemma imageCid_strips_scheme_witness :
  imageCid (Samples.imageOnIpfs "QmBadge") = Resolved (Some "QmBadge")
  /\ imageCid (Samples.imageAt "https://gw/ipfs://QmBadge")
     = Resolved (Some "https://gw/QmBadge").
Proof.
  split.
  - destruct (proj1 (imageCid_strips_scheme (Samples.imageOnIpfs "QmBadge"))
                {| url := Some "ipfs://QmBadge" |} [] "ipfs://QmBadge"
                eq_refl eq_refl)
      as [cid [Hcid [_ Htail]]].
    rewrite Hcid, (Htail "QmBadge" eq_refl). reflexivity.
  - destruct (proj1 (imageCid_strips_scheme
                       (Samples.imageAt "https://gw/ipfs://QmBadge"))
                {| url := Some "https://gw/ipfs://QmBadge" |} []
                "https://gw/ipfs://QmBadge" eq_refl eq_refl)
      as [cid [Hcid [Hfirst _]]].
    rewrite Hcid. do 2 f_equal.
    vm_compute in Hcid. injection Hcid as <-. reflexivity.
Defined.

End ImageUrl.

(** ** [execAction]: one execution per recommendation *)

Section ExecuteOnce.
Import App.

(** X13: an executed recommendation cannot be executed twice, and a failed
    one can be tried again. After a run that succeeded, a further call of
    [execAction] returns at once: nothing is posted and the state stays
    as it is. After a run that failed, the guard of [execAction] still
    holds for the same recommendation. *)
Theorem execAction_once (lib : Lib) (s1 s2 : Stamp)
        (resp : Outcome ExecResponse) (st : AppState) :
  started (ExecuteAttempt lib resp) st = true ->
  let run := execAction lib s1 s2 resp st in
  (refresh_scheduled run = true ->
   forall lib' s3 s4 resp',
     execAction lib' s3 s4 resp' (final run)
     = {| final := final run; sent := None; uncaught := None;
          refresh_scheduled := false |})
  /\ (refresh_scheduled run = false ->
      forall lib' resp',
        started (ExecuteAttempt lib' resp') (final run) = true).
Proof.
  intros Hstarted run. subst run.
  pose proof Hstarted as Hguard.
  destruct (started_execute lib resp st Hstarted)
    as [rec [addr [action [Hrec [Haddr [Hprov [Htruthy Hact]]]]]]].
  rewrite (execAction_run lib s1 s2 resp st rec addr action
             Hrec Haddr Hprov Htruthy Hact).
  cbv zeta.
  assert (Hkept : forall st',
             recommendation st' = recommendation st ->
             address st' = address st -> provider st' = provider st ->
             forall lib' resp',
               started (ExecuteAttempt lib' resp') st' = true).
  { intros st' H1 H2 H3 lib' resp'. unfold started in *.
    rewrite H1, H2, H3. exact Hguard. }
  destruct (buildPayload lib addr rec action
              (target st) (content st) (amount st)) as [p | msg];
    [destruct resp as [res | msg] |].
  - split; [| discriminate]. intros _ lib' s3 s4 resp'. reflexivity.
  - split; [discriminate |]. intros _. apply Hkept; reflexivity.
  - split; [discriminate |]. intros _. apply Hkept; reflexivity.
Qed.

Lemma execAction_once_witness :
  started (ExecuteAttempt sampleLib confirmedResponse) followReady = true
  /\ sent (execAction sampleLib stampA stampB confirmedResponse
             (final (execAction sampleLib stampA stampB confirmedResponse
                       followReady))) = None.
Proof.
  assert (Hdone : refresh_scheduled
                    (execAction sampleLib stampA stampB confirmedResponse
                       followReady) = true)
    by (vm_compute; reflexivity).
  split; [reflexivity |].
  rewrite (proj1 (execAction_once sampleLib stampA stampB confirmedResponse
                    followReady eq_refl)
             Hdone sampleLib stampA stampB confirmedResponse).
  reflexivity.
Defined.

End ExecuteOnce.

(** ** The log after many entries *)

Section LogHistory.
Import App Views.

Lemma take_app_take {A} (n : nat) (a b : list A) :
  take n (a ++ take n b) = take n (a ++ b).
Proof.
  rewrite !take_app, take_take. f_equal. f_equal. apply Nat.min_l. lia.
Qed.

(** X14: from a log within the cap, after any run of [addLog] calls the
    log holds the entries added followed by the older ones, newest first,
    cut at 50; so its length is the number of entries ever added, up to
    50. *)
Theorem log_keeps_latest (entries : list (Stamp * LogEntry))
        (l : list ActionLog) :
  (length l <= LOG_CAP)%nat ->
  addLogs entries l
  = take LOG_CAP (rev (map (fun se => stamped (fst se) (snd se)) entries)
                  ++ l)
  /\ length (addLogs entries l)
     = Nat.min LOG_CAP (length entries + length l).
Proof.
  intros Hl.
  assert (Hmain : addLogs entries l
                  = take LOG_CAP
                      (rev (map (fun se => stamped (fst se) (snd se))
                              entries) ++ l)).
  { revert l Hl. induction entries as [| se es IH]; intros l Hl.
    - cbn. rewrite take_ge; [reflexivity | exact Hl].
    - unfold addLogs. cbn [fold_left].
      fold (addLogs es (addLog se.1 se.2 l)).
      rewrite IH by (rewrite addLog_length; lia).
      unfold addLog, JS.slice0. rewrite take_app_take.
      cbn [map rev]. rewrite <- app_assoc. reflexivity. }
  split; [exact Hmain |].
  rewrite Hmain, length_take, length_app, length_rev, length_map.
  lia.
Qed.

Lemma log_keeps_latest_witness :
  let e := {| e_name := "Recommend"; e_status := "pending";
              e_message := "Agent thinking..."; e_txHash := None |} in
  (length (@nil ActionLog) <= LOG_CAP)%nat
  /\ addLogs [(stampA, e); (stampB, e)] []
     = [stamped stampB e; stamped stampA e].
Proof.
  intros e.
  assert (Hl : (length (@nil ActionLog) <= LOG_CAP)%nat)
    by (unfold LOG_CAP; simpl; lia).
  split; [exact Hl |].
  rewrite (proj1 (log_keeps_latest [(stampA, e); (stampB, e)] [] Hl)).
  reflexivity.
Defined.

End LogHistory.

(** ** [configureKeyManager]: exit codes *)

Section ConfigureRun.
Import KeyManager Configure.

(** X16: the script ends with exit code 1 exactly when a required
    variable is missing. Every later failure, of the owner lookup, of the
    selector decoding or of the transaction itself, leaves the exit code
    at 0, so the exit code does not tell whether the permissions were set;
    the transaction is reported as set only when it was proposed and
    confirmed. *)
Theorem configure_failure_exits_zero (abi : AbiCoder) (env : Env)
        (w : World) :
  let run := configureKeyManager abi env w in
  (exitCode run = 1 <-> configured env = false)
  /\ (exitCode run = 0 <-> configured env = true)
  /\ (forall hash,
        confirmed run = Some hash <->
        configured env = true
        /\ (exists keyManager, ownerCall w = App.Resolved keyManager)
        /\ is_Some (permissionEntries abi env)
        /\ transaction w = App.Resolved hash)
  /\ (is_Some (proposed run) ->
      proposed run = permissionEntries abi env
      /\ exists keyManager, ownerCall w = App.Resolved keyManager).
Proof.
  intros run. subst run. unfold configureKeyManager.
  destruct (configured env) eqn:Hconf; cbn [negb].
  - destruct (ownerCall w) as [km | msg] eqn:Howner.
    + destruct (permissionEntries abi env) as [entries |] eqn:Hentries.
      * destruct (transaction w) as [h | msg] eqn:Htx;
          cbn [exitCode confirmed proposed].
        -- split; [split; discriminate |]. split; [split; reflexivity |].
           split.
           ++ intros hash. split.
              ** intros [= ->]. split; [reflexivity |].
                 split; [eexists; reflexivity |].
                 split; [eexists; reflexivity | reflexivity].
              ** intros [_ [_ [_ [= ->]]]]. reflexivity.
           ++ intros _. split; [reflexivity | eexists; reflexivity].
        -- split; [split; discriminate |]. split; [split; reflexivity |].
           split.
           ++ intros hash. split; [discriminate |].
              intros [_ [_ [_ H]]]. discriminate H.
           ++ intros _. split; [reflexivity | eexists; reflexivity].
      * cbn [exitCode confirmed proposed].
        split; [split; discriminate |]. split; [split; reflexivity |].
        split.
        -- intros hash. split; [discriminate |].
           intros [_ [_ [[x H] _]]]. discriminate H.
        -- intros [x H]. discriminate H.
    + cbn [exitCode confirmed proposed].
      split; [split; discriminate |]. split; [split; reflexivity |].
      split.
      * intros hash. split; [discriminate |].
        intros [_ [[x H] _]]. discriminate H.
      * intros [x H]. discriminate H.
  - cbn [exitCode confirmed proposed].
    split; [split; reflexivity |]. split; [split; discriminate |].
    split.
    + intros hash. split; [discriminate |]. intros [H _]. discriminate H.
    + intros [x H]. discriminate H.
Qed.

Lemma configure_failure_exits_zero_witness :
  configured sampleEnv = true
  /\ proposed (configureKeyManager ethersCoder sampleEnv revertingWorld)
     = None
  /\ exitCode (configureKeyManager ethersCoder sampleEnv revertingWorld) = 0.
Proof.
  split; [reflexivity |].
  split; [vm_compute; reflexivity |].
  apply (proj1 (proj2 (configure_failure_exits_zero ethersCoder sampleEnv
                         revertingWorld))).
  reflexivity.
Defined.

End ConfigureRun.

(** ** [getRecom]: what a request leaves behind *)

Section Recommend.
Import App.

(** X17: [getRecom] posts a request exactly when the metrics are loaded
    and an account is connected, and it never changes the metrics or the
    three inputs. Refused at the guard, it only sets the error banner. A
    request that succeeds replaces the recommendation and clears the
    error; one that fails shows the error and leaves the earlier
    recommendation in place, as executable as it was before. *)
Theorem getRecom_outcome (s1 s2 : Stamp) (resp : Outcome ActionResponse)
        (st : AppState) :
  let out := getRecom s1 s2 resp st in
  (is_Some (snd out) <-> started (RecommendAttempt resp) st = true)
  /\ metrics (fst out) = metrics st
  /\ (target (fst out), content (fst out), amount (fst out))
     = (target st, content st, amount st)
  /\ (snd out = None ->
      fst out = setError (Some "Connect and load metrics first") st)
  /\ (is_Some (snd out) ->
      l_recommend (loading (fst out)) = false
      /\ match resp with
         | Resolved data =>
             recommendation (fst out) = Some data /\ error (fst out) = None
         | Rejected msg =>
             recommendation (fst out) = recommendation st
             /\ error (fst out) = Some msg
             /\ forall lib r,
                 started (ExecuteAttempt lib r) (fst out)
                 = started (ExecuteAttempt lib r) st
         end).
Proof.
  intros out. subst out. unfold getRecom, started.
  destruct (metrics st) as [m |] eqn:Hm.
  - destruct (address st) as [addr |] eqn:Haddr.
    + destruct (JS.truthy (Some addr)) eqn:Ht; cbn [negb fst snd].
      * split; [split; [reflexivity | intros _; eexists; reflexivity] |].
        destruct resp as [data | msg].
        -- split; [exact Hm |]. split; [reflexivity |].
           split; [discriminate |]. intros _. repeat split.
        -- split; [exact Hm |]. split; [reflexivity |].
           split; [discriminate |]. intros _. repeat split.
           intros lib r. cbn. rewrite Haddr, Ht. reflexivity.
      * split; [split; [intros [x H]; discriminate H | discriminate] |].
        split; [exact Hm |]. split; [reflexivity |].
        split; [reflexivity |]. intros [x H]. discriminate H.
    + cbn [fst snd].
      split; [split; [intros [x H]; discriminate H | discriminate] |].
      split; [exact Hm |]. split; [reflexivity |].
      split; [reflexivity |]. intros [x H]. discriminate H.
  - cbn [fst snd].
    split; [split; [intros [x H]; discriminate H | discriminate] |].
    split; [exact Hm |]. split; [reflexivity |].
    split; [reflexivity |]. intros [x H]. discriminate H.
Qed.

Lemma getRecom_outcome_witness :
  is_Some (snd (getRecom stampA stampB (Rejected "Network Error")
                  Samples.recommended))
  /\ recommendation (fst (getRecom stampA stampB (Rejected "Network Error")
                            Samples.recommended))
     = Some {| action_id := 0; action_name := "Make Post" |}.
Proof.
  assert (Hs : is_Some (snd (getRecom stampA stampB
                               (Rejected "Network Error")
                               Samples.recommended)))
    by (vm_compute; eexists; reflexivity).
  split; [exact Hs |].
  destruct (getRecom_outcome stampA stampB (Rejected "Network Error")
              Samples.recommended) as [_ [_ [_ [_ Hposted]]]].
  destruct (Hposted Hs) as [_ [Hrec _]]. exact Hrec.
Defined.

End Recommend.
